(** * Translation proxy: the Express server and the Cloudflare worker

    A shallow embedding of the two deployments of the translation proxy
    (the Express server, [Server], and the edge worker, [Worker]) and of the
    JavaScript string primitives both rely on ([JS]).  Definitions come
    first, the theorems about them follow. *)

From Stdlib Require Import ZArith NArith List Bool Lia String Ascii.
From stdpp Require Import base option list gmap countable.

Local Open Scope Z_scope.

(** ** JavaScript strings and values *)

Module JS.

(** A JavaScript string is a sequence of UTF-16 code units. *)
Definition jsstring := list N.

(** Code units of an ASCII literal. *)
Definition js (s : string) : jsstring :=
  List.map N_of_ascii (list_ascii_of_string s).

Definition LF : N := 10%N.
Definition SP : N := 32%N.

(** The class [\s] of a regular expression without the [u] flag, which is
    also the set [String.prototype.trim] strips: WhiteSpace and
    LineTerminator of ECMAScript. *)
Definition is_space (c : N) : bool :=
  ((9 <=? c) && (c <=? 13) || (c =? 32) || (c =? 160) || (c =? 5760)
   || (8192 <=? c) && (c <=? 8202) || (c =? 8232) || (c =? 8233)
   || (c =? 8239) || (c =? 8287) || (c =? 12288) || (c =? 65279))%N.

Definition is_LF (c : N) : bool := (c =? LF)%N.

Fixpoint trimStart (s : jsstring) : jsstring :=
  match s with
  | [] => []
  | c :: t => if is_space c then trimStart t else s
  end.

Fixpoint trimEnd (s : jsstring) : jsstring :=
  match s with
  | [] => []
  | c :: t =>
      match trimEnd t with
      | [] => if is_space c then [] else [c]
      | r => c :: r
      end
  end.

(** [s.trim()] *)
Definition trim (s : jsstring) : jsstring := trimEnd (trimStart s).

(** [s.split("\n")]: never empty, one more piece than there are line
    feeds. *)
Fixpoint split_LF (s : jsstring) : list jsstring :=
  match s with
  | [] => [[]]
  | c :: t =>
      if is_LF c then [] :: split_LF t
      else match split_LF t with
           | l :: ls => (c :: l) :: ls
           | [] => [[c]]
           end
  end.

(** [lines.join("\n")] *)
Fixpoint join_LF (ls : list jsstring) : jsstring :=
  match ls with
  | [] => []
  | [l] => l
  | l :: ls' => l ++ LF :: join_LF ls'
  end.

(** Length of the longest prefix of [s] whose code units satisfy [p]: what a
    greedy [p+] consumes at the start of [s]. *)
Fixpoint run (p : N → bool) (s : jsstring) : nat :=
  match s with
  | [] => O
  | c :: t => if p c then S (run p t) else O
  end.

(** [s.replace(/re/g, rep)] for a pattern [re] that never matches the empty
    string.  [m s] is the length of the match of [re] at the start of [s],
    [0] when there is none.  The scan goes left to right: where [re]
    matches, [rep] is emitted and the matched code units are skipped
    ([skip] counts those still to drop); elsewhere the code unit is
    copied. *)
Fixpoint replace_from (m : jsstring → nat) (rep : jsstring)
    (skip : nat) (s : jsstring) : jsstring :=
  match s with
  | [] => []
  | c :: t =>
      match skip with
      | S k => replace_from m rep k t
      | O =>
          match m s with
          | S k => rep ++ replace_from m rep k t
          | O => c :: replace_from m rep O t
          end
      end
  end.

Definition replace_all (m : jsstring → nat) (rep : jsstring)
    (s : jsstring) : jsstring :=
  replace_from m rep O s.

(** [/\s+/] *)
Definition match_spaces (s : jsstring) : nat := run is_space s.

(** [/\n{3,}/] *)
Definition match_3LF (s : jsstring) : nat :=
  let k := run is_LF s in if (3 <=? k)%nat then k else O.

(** [line.trim().replace(/\s+/g, " ")] *)
Definition squeeze (s : jsstring) : jsstring :=
  replace_all match_spaces [SP] (trim s).

(** [needle] occurs at the start of [s]. *)
Fixpoint startsWith (needle s : jsstring) : bool :=
  match needle, s with
  | [], _ => true
  | _ :: _, [] => false
  | a :: n', c :: t => (a =? c)%N && startsWith n' t
  end.

(** [s.includes(needle)] *)
Fixpoint includes (needle s : jsstring) : bool :=
  startsWith needle s
  || match s with
     | [] => false
     | _ :: t => includes needle t
     end.

(** [/^[a-z]{2}$/.test(s)] *)
Definition is_lower (c : N) : bool := ((97 <=? c) && (c <=? 122))%N.

Definition test_two_lower (s : jsstring) : bool :=
  match s with
  | [a; b] => is_lower a && is_lower b
  | _ => false
  end.

(** The values a field of a parsed JSON body can hold; [JUndefined] stands
    for an absent field, [JObject] for an array or an object (two of them
    are never identical under [===]).  Numbers are kept to the integers:
    only their truthiness and their identity matter here. *)
Inductive jsval :=
| JUndefined
| JNull
| JBool (b : bool)
| JNumber (z : Z)
| JString (s : jsstring)
| JObject.

(** ToBoolean *)
Definition truthy (v : jsval) : bool :=
  match v with
  | JUndefined | JNull => false
  | JBool b => b
  | JNumber z => negb (z =? 0)
  | JString s => negb (Nat.eqb (length s) 0)
  | JObject => true
  end.

Definition jsstring_eqb (a b : jsstring) : bool :=
  bool_decide (a = b).

(** [v === w] *)
Definition strict_eq (v w : jsval) : bool :=
  match v, w with
  | JUndefined, JUndefined => true
  | JNull, JNull => true
  | JBool a, JBool b => Bool.eqb a b
  | JNumber a, JNumber b => a =? b
  | JString a, JString b => jsstring_eqb a b
  | _, _ => false
  end.

End JS.

Import JS.

(** ** What both deployments share *)

(** The body of a [POST /translate] request, once parsed; a field that is
    absent is [JUndefined]. *)
Record Body := {
  text : jsval;
  sourceLang : jsval;
  targetLang : jsval;
  provider : jsval
}.

(** The answer sent back: the success shape (status 200), an error object
    with its status, or the rate limiter's refusal (status 429, with the
    number of seconds to wait). *)
Inductive Response :=
| Success (translation : jsstring) (cached : bool) (detectedSourceLang : jsval)
| Failure (status : Z) (error : jsstring) (message : option jsstring)
| TooManyRequests (error : jsstring) (retryAfter : option Z).

Definition status (r : Response) : Z :=
  match r with
  | Success _ _ _ => 200
  | Failure st _ _ => st
  | TooManyRequests _ _ => 429
  end.

(** What a request did to the outside world, in order. *)
Inductive Event :=
| EvRateLimit (clientIP : jsstring)
| EvDetect (text : jsstring)
| EvCacheGet (key : jsstring)
| EvTranslate (text : jsstring) (source target : jsval)
| EvCachePut (key : jsstring).

Definition is_cache_or_translate (e : Event) : bool :=
  match e with
  | EvCacheGet _ | EvTranslate _ _ _ | EvCachePut _ => true
  | _ => false
  end.

(** Primitives of the JavaScript runtime that are taken as given:
    [String.prototype.toLowerCase], and the hexadecimal SHA-1 digest of
    [JSON.stringify({ text, sourceLang, targetLang, provider })]. *)
Record Platform := {
  toLowerCase : jsstring → jsstring;
  sha1_json : jsstring → jsval → jsval → jsval → jsstring
}.

Definition generateCacheKey (pf : Platform) (text : jsstring)
    (sourceLang targetLang provider : jsval) : jsstring :=
  sha1_json pf text sourceLang targetLang provider.

Definition is_string (v : jsval) : bool :=
  match v with JString _ => true | _ => false end.

(** [!text || typeof text !== "string" || text.trim().length === 0] *)
Definition text_invalid (text : jsval) : bool :=
  negb (truthy text) || negb (is_string text)
  || match text with
     | JString s => Nat.eqb (length (trim s)) 0
     | _ => false
     end.

(** [provider !== "gemini"] *)
Definition provider_invalid (provider : jsval) : bool :=
  negb (strict_eq provider (JString (js "gemini"))).

(** The string held by a value that passed the [typeof] test. *)
Definition string_of (v : jsval) : jsstring :=
  match v with JString s => s | _ => [] end.

(** [const { sourceLang = "auto" } = body] *)
Definition sourceLang_or_auto (b : Body) : jsval :=
  match sourceLang b with
  | JUndefined => JString (js "auto")
  | v => v
  end.

(** A name between double quotes, as the error messages print it. *)
Definition quoted (name : string) : jsstring := 34%N :: js name ++ [34%N].

Definition text_error : Response :=
  Failure 400
    (js "Invalid request: " ++ quoted "text"
     ++ js " is required and must be a non-empty string")
    None.

Definition targetLang_error : Response :=
  Failure 400
    (js "Invalid request: " ++ quoted "targetLang" ++ js " is required") None.

Definition provider_error : Response :=
  Failure 400
    (js "Invalid request: " ++ quoted "provider" ++ js " must be "
     ++ quoted "gemini")
    None.

(** The cleaned answer of the language detector and its check against
    [/^[a-z]{2}$/], with the fallback to English. *)
Definition detected_or_en (pf : Platform) (answer : jsstring) : jsstring :=
  let detectedLang := toLowerCase pf (trim answer) in
  if test_two_lower detectedLang then detectedLang else js "en".

(** ** The Express server *)

Module Server.

(** [normalizeText]: every line is trimmed and its runs of white space
    become one space; then runs of three or more line feeds become two. *)
Definition normalizeText (text : jsstring) : jsstring :=
  replace_all match_3LF [LF; LF]
    (join_LF (List.map squeeze (split_LF text))).

(** The environment: [GOOGLE_API_KEY] when it is set, [CACHE_TTL_HOURS]
    when it is set to a number (unset or empty it is [None]), and whether
    [NODE_ENV] is ["development"]. *)
Record Config := {
  GOOGLE_API_KEY : option jsstring;
  CACHE_TTL_HOURS : option Z;
  development : bool
}.

(** [(process.env.CACHE_TTL_HOURS || 72) * 60 * 60 * 1000] *)
Definition CACHE_TTL_MS (cfg : Config) : Z :=
  default 72 (CACHE_TTL_HOURS cfg) * 60 * 60 * 1000.

Record CacheEntry := {
  translation : jsstring;
  timestamp : Z
}.

(** Outcome of [model.generateContent] followed by
    [result.response.text()]: the text, or an exception with its message. *)
Inductive Reply :=
| Answer (text : jsstring)
| Throws (message : jsstring).

(** The generative model behind both prompts, as seen from one request.
    The client is built once, [new GoogleGenerativeAI(GOOGLE_API_KEY)], so
    the credential is the first argument of both calls; the prompts are
    represented by what varies in them, the text and the two languages. *)
Record Upstream := {
  detect_reply : option jsstring → jsstring → Reply;
  translate_reply : option jsstring → jsstring → jsval → jsval → Reply
}.

(** The two readings of [Date.now()] of one request. *)
Record Clock := {
  now_lookup : Z;
  now_store : Z
}.

Definition detectLanguage (pf : Platform) (cfg : Config) (up : Upstream)
    (text : jsstring) : jsstring :=
  match detect_reply up (GOOGLE_API_KEY cfg) (take 500 text) with
  | Answer r => detected_or_en pf r
  | Throws _ => js "en"
  end.

(** Left: the translation; right: the message of the error thrown. *)
Definition translateText (cfg : Config) (up : Upstream) (text : jsstring)
    (sourceLang targetLang : jsval) : jsstring + jsstring :=
  match translate_reply up (GOOGLE_API_KEY cfg) text sourceLang
          targetLang with
  | Answer r => inl (trim r)
  | Throws m => inr (js "Translation failed: " ++ m)
  end.

(** [let detectedSourceLang = sourceLang; if (sourceLang === "auto") ...] *)
Definition resolve_source (pf : Platform) (cfg : Config) (up : Upstream)
    (sourceLang : jsval) (normalizedText : jsstring) : jsval * list Event :=
  if strict_eq sourceLang (JString (js "auto"))
  then (JString (detectLanguage pf cfg up normalizedText),
        [EvDetect normalizedText])
  else (sourceLang, []).

(** [translationCache.get(cacheKey)] with the age test of the handler. *)
Definition cache_get (cfg : Config) (now : Z)
    (cache : gmap jsstring CacheEntry) (key : jsstring) : option CacheEntry :=
  match cache !! key with
  | Some cached =>
      if now - timestamp cached <? CACHE_TTL_MS cfg then Some cached else None
  | None => None
  end.

(** [cleanupCache], run every hour. *)
Definition cleanupCache (cfg : Config) (now : Z)
    (cache : gmap jsstring CacheEntry) : gmap jsstring CacheEntry :=
  filter (λ kv, ¬ (now - timestamp kv.2 > CACHE_TTL_MS cfg)) cache.

(** [!targetLang || typeof targetLang !== "string"] *)
Definition targetLang_invalid (targetLang : jsval) : bool :=
  negb (truthy targetLang) || negb (is_string targetLang).

(** Status chosen in the [catch] of the handler. *)
Definition statusCode (message : jsstring) : Z :=
  if includes (js "API key") message then 401
  else if includes (js "quota") message then 429
  else if includes (js "Translation failed") message then 502
  else 500.

Definition service_error (cfg : Config) (message : jsstring) : Response :=
  Failure (statusCode message) (js "Translation service error")
    (Some (if development cfg then message
           else js "An error occurred during translation")).

(** The three checks of the handler pass. *)
Definition valid (body : Body) : bool :=
  negb (text_invalid (text body))
  && negb (targetLang_invalid (targetLang body))
  && negb (provider_invalid (provider body)).

(** [app.post("/translate", ...)] *)
Definition post_translate (pf : Platform) (cfg : Config) (up : Upstream)
    (clock : Clock) (cache : gmap jsstring CacheEntry) (body : Body)
    : Response * gmap jsstring CacheEntry * list Event :=
  let sourceLang := sourceLang_or_auto body in
  if text_invalid (text body) then (text_error, cache, [])
  else if targetLang_invalid (targetLang body) then
    (targetLang_error, cache, [])
  else if provider_invalid (provider body) then (provider_error, cache, [])
  else
    let normalizedText := normalizeText (string_of (text body)) in
    let '(detectedSourceLang, ev) :=
      resolve_source pf cfg up sourceLang normalizedText in
    if strict_eq detectedSourceLang (targetLang body) then
      (Success normalizedText false detectedSourceLang, cache, ev)
    else
      let cacheKey :=
        generateCacheKey pf normalizedText detectedSourceLang
          (targetLang body) (provider body) in
      match cache_get cfg (now_lookup clock) cache cacheKey with
      | Some cached =>
          (Success (translation cached) true detectedSourceLang, cache,
           ev ++ [EvCacheGet cacheKey])
      | None =>
          let call :=
            EvTranslate normalizedText detectedSourceLang (targetLang body) in
          match translateText cfg up normalizedText detectedSourceLang
                  (targetLang body) with
          | inl translation =>
              (Success translation false detectedSourceLang,
               <[cacheKey := {| translation := translation;
                                timestamp := now_store clock |}]> cache,
               ev ++ [EvCacheGet cacheKey; call; EvCachePut cacheKey])
          | inr message =>
              (service_error cfg message, cache,
               ev ++ [EvCacheGet cacheKey; call])
          end
      end.

(** The route as mounted: [app.use("/translate", limiter)] comes before the
    handler.  The limiter is the [express-rate-limit] middleware; its verdict
    on the request ([true]: over the limit and not skipped) is an input. *)
Definition limiter_message : Response :=
  TooManyRequests
    (js "Too many requests from this IP, please try again later.") (Some 60).

Definition translate_route (over_limit : bool) (pf : Platform)
    (cfg : Config) (up : Upstream) (clock : Clock)
    (cache : gmap jsstring CacheEntry) (body : Body)
    : Response * gmap jsstring CacheEntry * list Event :=
  if over_limit then (limiter_message, cache, [])
  else post_translate pf cfg up clock cache body.

End Server.

(** ** The Cloudflare worker *)

Module Worker.

(** Cache TTL in seconds (72 hours) *)
Definition CACHE_TTL : Z := 72 * 60 * 60.

Definition RATE_LIMIT_WINDOW : Z := 60.
Definition RATE_LIMIT_MAX : Z := 60.

Definition normalizeText (text : jsstring) : jsstring := squeeze text.

(** [env.GOOGLE_API_KEY] *)
Record Env := {
  GOOGLE_API_KEY : option jsstring
}.

(** [!env.GOOGLE_API_KEY] *)
Definition api_key_missing (env : Env) : bool :=
  match GOOGLE_API_KEY env with
  | None => true
  | Some k => Nat.eqb (length k) 0
  end.

Record RateData := {
  count : Z;
  windowStart : Z
}.

Record CacheRecord := {
  translation : jsstring;
  timestamp : Z
}.

(** An entry of the KV namespace with the time (in ms) at which its
    [expirationTtl] runs out. *)
Record Stored (A : Type) := {
  value : A;
  expires : Z
}.
Arguments value {A} _.
Arguments expires {A} _.

(** The KV namespace [TRANSLATION_CACHE].  It holds the rate-limit windows
    under the keys [ratelimit:<ip>] and the translations under their
    40-digit hexadecimal digests; the two families of keys are disjoint and
    are kept as two maps, the first keyed by the client address. *)
Record KV := {
  windows : gmap jsstring (Stored RateData);
  translations : gmap jsstring (Stored CacheRecord)
}.

(** [get(key, { type: "json" })]: [null] for an absent key, and for one
    whose TTL has run out, as the store expires it by itself. *)
Definition kv_get {A} (now : Z) (m : gmap jsstring (Stored A))
    (key : jsstring) : option A :=
  match m !! key with
  | Some e => if now <? expires e then Some (value e) else None
  | None => None
  end.

(** [put(key, value, { expirationTtl })], the TTL in seconds. *)
Definition kv_put {A} (now : Z) (m : gmap jsstring (Stored A))
    (key : jsstring) (v : A) (expirationTtl : Z) : gmap jsstring (Stored A) :=
  <[key := {| value := v; expires := now + expirationTtl * 1000 |}]> m.

Record RateLimit := {
  allowed : bool;
  remaining : Z;
  retryAfter : option Z
}.

(** [checkRateLimit]; [windowStart'] is the local [windowStart] of the
    source, the earliest start a window still in force can have. *)
Definition checkRateLimit (now : Z) (m : gmap jsstring (Stored RateData))
    (clientIP : jsstring) : RateLimit * gmap jsstring (Stored RateData) :=
  let windowStart' := now - RATE_LIMIT_WINDOW * 1000 in
  match kv_get now m clientIP with
  | None =>
      (* first request *)
      ({| allowed := true; remaining := RATE_LIMIT_MAX - 1;
          retryAfter := None |},
       kv_put now m clientIP {| count := 1; windowStart := now |}
         RATE_LIMIT_WINDOW)
  | Some data =>
      if windowStart data <? windowStart' then
        (* new window *)
        ({| allowed := true; remaining := RATE_LIMIT_MAX - 1;
            retryAfter := None |},
         kv_put now m clientIP {| count := 1; windowStart := now |}
           RATE_LIMIT_WINDOW)
      else if RATE_LIMIT_MAX <=? count data then
        (* within the window, count used up *)
        ({| allowed := false; remaining := 0;
            retryAfter := Some RATE_LIMIT_WINDOW |}, m)
      else
        (* increment the count *)
        ({| allowed := true; remaining := RATE_LIMIT_MAX - count data - 1;
            retryAfter := None |},
         kv_put now m clientIP
           {| count := count data + 1; windowStart := windowStart data |}
           RATE_LIMIT_WINDOW)
  end.

(** Outcome of a [fetch] to the generative-language API: a success response
    carrying the candidate text, a non-success response with its status text
    and body, or an exception (the request failed, or the answer has not the
    expected shape). *)
Inductive Reply :=
| Answer (text : jsstring)
| NotOk (statusText body : jsstring)
| Throws (message : jsstring).

(** The two calls carry the credential in their URL, [?key=${apiKey}]. *)
Record Upstream := {
  detect_reply : option jsstring → jsstring → Reply;
  translate_reply : option jsstring → jsstring → jsval → jsval → Reply
}.

(** The readings of the clock of one request: in [checkRateLimit], at the
    cache lookup and at the cache store. *)
Record Clock := {
  now_arrival : Z;
  now_lookup : Z;
  now_store : Z
}.

(** Left: the language code; right: the message of the error thrown. *)
Definition detectLanguage (pf : Platform) (env : Env) (up : Upstream)
    (text : jsstring) : jsstring + jsstring :=
  match detect_reply up (GOOGLE_API_KEY env) (take 500 text) with
  | Answer r => inl (detected_or_en pf r)
  | NotOk statusText _ => inr (js "Language detection failed: " ++ statusText)
  | Throws m => inr m
  end.

Definition translateText (env : Env) (up : Upstream) (text : jsstring)
    (sourceLang targetLang : jsval) : jsstring + jsstring :=
  match translate_reply up (GOOGLE_API_KEY env) text sourceLang
          targetLang with
  | Answer r => inl (trim r)
  | NotOk statusText body =>
      inr (js "Translation failed: " ++ statusText ++ js " - " ++ body)
  | Throws m => inr m
  end.

(** The response of the [catch] block. *)
Definition service_error (message : jsstring) : Response :=
  Failure 502 (js "Translation service error") (Some message).

Definition configuration_error : Response :=
  Failure 500 (js "Server configuration error: API key not set") None.

(** [!targetLang] *)
Definition targetLang_invalid (targetLang : jsval) : bool :=
  negb (truthy targetLang).

(** [cached && cached.translation] *)
Definition cache_hit (cached : option CacheRecord) : option jsstring :=
  match cached with
  | Some c =>
      if Nat.eqb (length (translation c)) 0 then None
      else Some (translation c)
  | None => None
  end.

(** [let detectedSourceLang = sourceLang; if (sourceLang === "auto") ...];
    right: the message of the error [detectLanguage] threw. *)
Definition resolve_source (pf : Platform) (env : Env) (up : Upstream)
    (sourceLang : jsval) (normalizedText : jsstring)
    : (jsval + jsstring) * list Event :=
  if strict_eq sourceLang (JString (js "auto"))
  then (match detectLanguage pf env up normalizedText with
        | inl lang => inl (JString lang)
        | inr message => inr message
        end, [EvDetect normalizedText])
  else (inl sourceLang, []).

(** The three checks of the handler pass. *)
Definition valid (body : Body) : bool :=
  negb (text_invalid (text body))
  && negb (targetLang_invalid (targetLang body))
  && negb (provider_invalid (provider body)).

(** The part of the handler after the rate limiter and the validation:
    from [normalizeText] to the response. *)
Definition translate_valid (pf : Platform) (env : Env) (up : Upstream)
    (clock : Clock) (kv : KV) (body : Body) : Response * KV * list Event :=
  let sourceLang := sourceLang_or_auto body in
  let normalizedText := normalizeText (string_of (text body)) in
  match resolve_source pf env up sourceLang normalizedText with
  | (inr message, ev) => (service_error message, kv, ev)
  | (inl detectedSourceLang, ev) =>
      if strict_eq detectedSourceLang (targetLang body) then
        (Success normalizedText false detectedSourceLang, kv, ev)
      else
        let cacheKey :=
          generateCacheKey pf normalizedText detectedSourceLang
            (targetLang body) (provider body) in
        let cached := kv_get (now_lookup clock) (translations kv) cacheKey in
        match cache_hit cached with
        | Some t =>
            (Success t true detectedSourceLang, kv,
             ev ++ [EvCacheGet cacheKey])
        | None =>
            if api_key_missing env then
              (configuration_error, kv, ev ++ [EvCacheGet cacheKey])
            else
              let call :=
                EvTranslate normalizedText detectedSourceLang
                  (targetLang body) in
              match translateText env up normalizedText detectedSourceLang
                      (targetLang body) with
              | inl t =>
                  (Success t false detectedSourceLang,
                   {| windows := windows kv;
                      translations :=
                        kv_put (now_store clock) (translations kv) cacheKey
                          {| translation := t;
                             timestamp := now_store clock |} CACHE_TTL |},
                   ev ++ [EvCacheGet cacheKey; call; EvCachePut cacheKey])
              | inr message =>
                  (service_error message, kv,
                   ev ++ [EvCacheGet cacheKey; call])
              end
        end
  end.

(** The body as it arrives: [request.json()] throws on a body that is not
    JSON. *)
Inductive RawBody :=
| Malformed (message : jsstring)
| Parsed (body : Body).

(** The [POST /translate] branch of [fetch]. *)
Definition fetch (pf : Platform) (env : Env) (up : Upstream) (clock : Clock)
    (kv : KV) (clientIP : jsstring) (raw : RawBody)
    : Response * KV * list Event :=
  let '(rateLimit, windows') :=
    checkRateLimit (now_arrival clock) (windows kv) clientIP in
  let kv' := {| windows := windows'; translations := translations kv |} in
  let ev := [EvRateLimit clientIP] in
  if negb (allowed rateLimit) then
    (TooManyRequests (js "Too many requests") (retryAfter rateLimit), kv', ev)
  else
    match raw with
    | Malformed message => (service_error message, kv', ev)
    | Parsed body =>
        if text_invalid (text body) then (text_error, kv', ev)
        else if targetLang_invalid (targetLang body) then
          (targetLang_error, kv', ev)
        else if provider_invalid (provider body) then
          (provider_error, kv', ev)
        else
          let '(r, kv'', ev') := translate_valid pf env up clock kv' body in
          (r, kv'', ev ++ ev')
    end.

(** The rate limiter lets the request through. *)
Definition admits (clock : Clock) (kv : KV) (clientIP : jsstring) : bool :=
  allowed (checkRateLimit (now_arrival clock) (windows kv) clientIP).1.

(** The namespace once the rate limiter has seen the request. *)
Definition counted (clock : Clock) (kv : KV) (clientIP : jsstring) : KV :=
  {| windows := (checkRateLimit (now_arrival clock) (windows kv) clientIP).2;
     translations := translations kv |}.

End Worker.

Abbreviation window_map := (gmap jsstring (Worker.Stored Worker.RateData)).
Abbreviation cache_map := (gmap jsstring Server.CacheEntry).

(** ** Auxiliary notions used in the proofs *)

Definition line_count (s : jsstring) : nat := length (split_LF s).

(** The line-wise stage of the server's [normalizeText]. *)
Definition squeeze_lines (s : jsstring) : jsstring :=
  join_LF (List.map squeeze (split_LF s)).

(** [s] contains three line feeds in a row. *)
Definition has_3LF (s : jsstring) : bool := includes [LF; LF; LF] s.

(** [replace(/\s+/g, " ")] as a one-pass scan; [inrun] tells that the
    previous code unit was white space. *)
Fixpoint squeeze_run (inrun : bool) (s : jsstring) : jsstring :=
  match s with
  | [] => []
  | c :: t =>
      if is_space c
      then (if inrun then squeeze_run true t else SP :: squeeze_run true t)
      else c :: squeeze_run false t
  end.

(** [replace(/\n{3,}/g, "\n\n")] as a one-pass scan; [n] counts the line
    feeds already kept in the current run. *)
Fixpoint cap_LF (n : nat) (s : jsstring) : jsstring :=
  match s with
  | [] => []
  | c :: t =>
      if is_LF c
      then (if (n <? 2)%nat then c :: cap_LF (S n) t else cap_LF n t)
      else c :: cap_LF O t
  end.

Definition starts_clean (s : jsstring) : bool :=
  match s with [] => true | c :: _ => negb (is_space c) end.

(** Every white-space code unit of [s] is a single space followed by a
    code unit that is not white space. *)
Fixpoint tidy (s : jsstring) : bool :=
  match s with
  | [] => true
  | c :: t =>
      if is_space c
      then (c =? SP)%N && negb (Nat.eqb (length t) 0) && starts_clean t
           && tidy t
      else tidy t
  end.

Definition LF_free (s : jsstring) : bool :=
  forallb (λ c, negb (is_LF c)) s.

Fixpoint count_LF (s : jsstring) : nat :=
  match s with
  | [] => O
  | c :: t => if is_LF c then S (count_LF t) else count_LF t
  end.

(** The requests of one client at the given times, in order: the verdict
    of the rate limiter on each and the windows left behind. *)
Fixpoint serve (times : list Z) (m : window_map) (clientIP : jsstring)
    : list bool * window_map :=
  match times with
  | [] => ([], m)
  | t :: ts =>
      let '(r, m') := Worker.checkRateLimit t m clientIP in
      let '(rs, m'') := serve ts m' clientIP in
      (Worker.allowed r :: rs, m'')
  end.

(** The conditions of the validator, in the words of the specification. *)
Definition is_nonblank_string (v : jsval) : Prop :=
  ∃ s, v = JString s ∧ trim s ≠ [].

Definition is_nonempty_string (v : jsval) : Prop :=
  ∃ s, v = JString s ∧ s ≠ [].

Definition is_gemini (v : jsval) : Prop := v = JString (js "gemini").

(** No event of the trace touches the cache or the translation service. *)
Definition quiet (ev : list Event) : bool :=
  forallb (λ e, negb (is_cache_or_translate e)) ev.

(** No event of the trace is a call of the translation service. *)
Definition no_translate (ev : list Event) : bool :=
  forallb (λ e, match e with EvTranslate _ _ _ => false | _ => true end) ev.

Definition with_source (b : Body) (s : jsval) : Body :=
  {| text := text b; sourceLang := s; targetLang := targetLang b;
     provider := provider b |}.

(** The detector threw, or its cleaned answer is not two lower-case
    letters. *)
Definition server_detection_failed (pf : Platform) (cfg : Server.Config)
    (up : Server.Upstream) (t : jsstring) : Prop :=
  match Server.detect_reply up (Server.GOOGLE_API_KEY cfg) (take 500 t) with
  | Server.Answer r => test_two_lower (toLowerCase pf (trim r)) = false
  | Server.Throws _ => True
  end.

Definition new_window (now : Z) : Worker.RateData :=
  {| Worker.count := 1; Worker.windowStart := now |}.

Definition verdict (a : bool) (r : Z) (w : option Z) : Worker.RateLimit :=
  {| Worker.allowed := a; Worker.remaining := r; Worker.retryAfter := w |}.

(** [t] lies in the window opened at [t0]. *)
Definition in_window (t0 t : Z) : Prop :=
  t0 ≤ t < t0 + Worker.RATE_LIMIT_WINDOW * 1000.

(** The window of [ip] opened at [t0] counts [c] requests and its entry
    outlives the window. *)
Definition window_open (m : window_map) (ip : jsstring) (t0 c : Z) : Prop :=
  ∃ e, m !! ip = Some {| Worker.value := {| Worker.count := c;
                                            Worker.windowStart := t0 |};
                         Worker.expires := e |}
       ∧ t0 + Worker.RATE_LIMIT_WINDOW * 1000 ≤ e.

(** A request at [t0] starts a new window: nothing is stored for the client,
    or what is stored began more than a window ago. *)
Definition opens_window (m : window_map) (ip : jsstring) (t0 : Z) : Prop :=
  Worker.kv_get t0 m ip = None
  ∨ ∃ d, Worker.kv_get t0 m ip = Some d
         ∧ t0 - Worker.windowStart d > Worker.RATE_LIMIT_WINDOW * 1000.

(** ** Sample instances, for the examples *)

Definition ascii_lower (c : N) : N :=
  if ((65 <=? c) && (c <=? 90))%N then (c + 32)%N else c.

Definition tag_of (v : jsval) : jsstring :=
  match v with
  | JUndefined => [0%N]
  | JNull => [1%N]
  | JBool b => [2%N; if b then 1%N else 0%N]
  | JNumber z => [3%N; Z.to_N (Z.abs z)]
  | JString s => 4%N :: s
  | JObject => [5%N]
  end.

(** Lower case of ASCII letters, and the fields themselves in place of their
    digest. *)
Definition sample_platform : Platform := {|
  toLowerCase := List.map ascii_lower;
  sha1_json := λ t s g p, t ++ 0%N :: tag_of s ++ 0%N :: tag_of g ++ tag_of p
|}.

Definition request (t : string) (s : jsval) (g : jsval) (p : string) : Body :=
  {| text := JString (js t); sourceLang := s; targetLang := g;
     provider := JString (js p) |}.

Definition lang (code : string) : jsval := JString (js code).

Definition client : jsstring := js "203.0.113.7".

Definition hello : Body :=
  request "Hello world" (lang "en") (lang "vi") "gemini".

Module ServerSample.
Import Server.

Definition cfg : Config :=
  {| GOOGLE_API_KEY := Some (js "secret"); CACHE_TTL_HOURS := None;
     development := true |}.

Definition cfg_no_key : Config :=
  {| GOOGLE_API_KEY := None; CACHE_TTL_HOURS := None; development := true |}.

(** A model that answers when it is given a credential and refuses
    otherwise. *)
Definition up : Upstream := {|
  detect_reply := λ key _,
    match key with
    | Some _ => Answer (js " EN ")
    | None => Throws (js "API key not valid. Please pass a valid API key.")
    end;
  translate_reply := λ key _ _ _,
    match key with
    | Some _ => Answer (js "Xin chao the gioi ")
    | None => Throws (js "API key not valid. Please pass a valid API key.")
    end
|}.

Definition clock (t : Z) : Clock := {| now_lookup := t; now_store := t + 900 |}.

End ServerSample.

Module WorkerSample.
Import Worker.

Definition env : Env := {| GOOGLE_API_KEY := Some (js "secret") |}.
Definition env_no_key : Env := {| GOOGLE_API_KEY := None |}.

Definition up : Upstream := {|
  detect_reply := λ _ _, Answer (js " EN ");
  translate_reply := λ _ _ _ _, Answer (js "Xin chao the gioi ")
|}.

(** The detector is down, the translator is not. *)
Definition up_detector_down : Upstream := {|
  detect_reply := λ _ _, NotOk (js "Service Unavailable") [];
  translate_reply := λ _ _ _ _, Answer (js "Xin chao the gioi ")
|}.

(** The translator answers with blanks only. *)
Definition up_blank : Upstream := {|
  detect_reply := λ _ _, Answer (js "en");
  translate_reply := λ _ _ _ _, Answer (js "  ")
|}.

Definition clock (t : Z) : Clock :=
  {| now_arrival := t; now_lookup := t + 100; now_store := t + 900 |}.

Definition empty_kv : KV := {| windows := ∅; translations := ∅ |}.

(** The namespace after sixty requests of [client] at time [1000]. *)
Definition busy_kv : KV :=
  {| windows := (serve (repeat 1000 60) ∅ client).2; translations := ∅ |}.

End WorkerSample.

(** ** Words, and splitting on any separator *)

(** The maximal runs of code units of [s] that are not white space, in
    order. *)
Fixpoint words (s : jsstring) : list jsstring :=
  match s with
  | [] => []
  | c :: t =>
      if is_space c then words t
      else match t with
           | [] => [[c]]
           | d :: _ =>
               if is_space d then [c] :: words t
               else match words t with
                    | w :: ws => (c :: w) :: ws
                    | [] => [[c]]
                    end
           end
  end.

(** [s.split(sep)] for a separator of one code unit. *)
Fixpoint split_on (sep : N) (s : jsstring) : list jsstring :=
  match s with
  | [] => [[]]
  | c :: t =>
      if (c =? sep)%N then [] :: split_on sep t
      else match split_on sep t with
           | l :: ls => (c :: l) :: ls
           | [] => [[c]]
           end
  end.

(** [ls.join(sep)] *)
Fixpoint join_on (sep : N) (ls : list jsstring) : jsstring :=
  match ls with
  | [] => []
  | [l] => l
  | l :: ls' => l ++ sep :: join_on sep ls'
  end.

(** No code unit of [s] is white space. *)
Definition space_free (s : jsstring) : bool :=
  forallb (λ c, negb (is_space c)) s.

(** ** Reading a trace *)

Definition is_translate (e : Event) : bool :=
  match e with EvTranslate _ _ _ => true | _ => false end.

(** Number of calls of the translation service in a trace. *)
Definition translate_calls (ev : list Event) : nat :=
  length (List.filter is_translate ev).


(** The message the server shows outside development. *)
Definition generic_message : jsstring :=
  js "An error occurred during translation".

(** A configuration outside development, without a credential. *)
Definition cfg_production : Server.Config :=
  {| Server.GOOGLE_API_KEY := None; Server.CACHE_TTL_HOURS := None;
     Server.development := false |}.


(** Every stored window counts at least one request and at most
    [RATE_LIMIT_MAX]. *)
Definition counts_bounded (m : window_map) : Prop :=
  ∀ ip e, m !! ip = Some e →
          1 ≤ Worker.count (Worker.value e) ≤ Worker.RATE_LIMIT_MAX.

(** ** Origins, trusted addresses and routes *)

Definition COMMA : N := 44%N.

(** [xs.includes(x)] on an array of strings. *)
Definition array_includes (xs : list jsstring) (x : jsstring) : bool :=
  existsb (jsstring_eqb x) xs.

(** [x || fallback] for a string that may be absent. *)
Definition or_default (x : option jsstring) (fallback : jsstring)
    : jsstring :=
  match x with
  | Some (c :: s) => c :: s
  | _ => fallback
  end.

(** Headers, in the order in which the fields were set. *)
Definition Headers := list (jsstring * jsstring).

Fixpoint header (name : jsstring) (hs : Headers) : option jsstring :=
  match hs with
  | [] => None
  | (k, v) :: hs' => if jsstring_eqb k name then Some v else header name hs'
  end.

Definition comma_free (s : jsstring) : bool :=
  forallb (λ c, negb (c =? COMMA)%N) s.

Definition CHROME_EXTENSION : jsstring := js "chrome-extension://".
Definition ALLOW_ORIGIN : jsstring := js "Access-Control-Allow-Origin".

Module ServerMiddleware.

(** [process.env.ALLOWED_ORIGINS ? ....split(",").map((o) => o.trim())
    : ["*"]] *)
Definition allowedOrigins (ALLOWED_ORIGINS : option jsstring)
    : list jsstring :=
  match ALLOWED_ORIGINS with
  | Some (c :: s) => List.map trim (split_on COMMA (c :: s))
  | _ => [js "*"]
  end.

(** The [origin] callback handed to [cors]: [None] is
    [callback(null, true)], [Some m] is [callback(new Error(m))]. *)
Definition origin (allowedOrigins : list jsstring)
    (origin : option jsstring) : option jsstring :=
  match origin with
  | Some (c :: o) =>
      if startsWith CHROME_EXTENSION (c :: o) then None
      else if array_includes allowedOrigins (js "*")
              || array_includes allowedOrigins (c :: o)
      then None
      else Some (js "Not allowed by CORS")
  | _ => None
  end.

(** The [skip] option of the limiter:
    [process.env.TRUSTED_IPS?.split(",") || []], then
    [trustedIPs.includes(req.ip)]. *)
Definition skip (TRUSTED_IPS : option jsstring) (ip : jsstring) : bool :=
  let trustedIPs :=
    match TRUSTED_IPS with
    | Some s => split_on COMMA s
    | None => []
    end in
  array_includes trustedIPs ip.


End ServerMiddleware.

Module WorkerRoutes.

(** [(env.ALLOWED_ORIGINS || "*").split(",").map((o) => o.trim())] *)
Definition allowedOrigins (ALLOWED_ORIGINS : option jsstring)
    : list jsstring :=
  List.map trim (split_on COMMA (or_default ALLOWED_ORIGINS (js "*"))).

Definition getCorsHeaders (origin : jsstring)
    (allowedOrigins : list jsstring) : Headers :=
  let headers :=
    [(js "Access-Control-Allow-Methods", js "POST, GET, OPTIONS");
     (js "Access-Control-Allow-Headers", js "Content-Type");
     (js "Access-Control-Max-Age", js "86400")] in
  if startsWith CHROME_EXTENSION origin then
    headers ++ [(ALLOW_ORIGIN, origin)]
  else if array_includes allowedOrigins (js "*") then
    headers ++ [(ALLOW_ORIGIN, js "*")]
  else if array_includes allowedOrigins origin then
    headers ++ [(ALLOW_ORIGIN, origin)]
  else headers.

(** What [fetch] reads of a request: the method, the path of the URL, the
    two headers, and the body. *)
Record Request := {
  method : jsstring;
  pathname : jsstring;
  Origin : option jsstring;
  CF_Connecting_IP : option jsstring;
  json : Worker.RawBody
}.

(** The four answers of [fetch]: the preflight answer and the health
    report (both with status 200), the answer of the translation branch,
    and the 404. *)
Inductive Answer :=
| Preflight
| Health
| Translate (r : Response)
| NotFound.

Definition answer_status (a : Answer) : Z :=
  match a with
  | Preflight | Health => 200
  | Translate r => status r
  | NotFound => 404
  end.

(** [fetch(request, env, ctx)]: the answer with the CORS headers spread
    into it, the namespace and the trace. *)
Definition fetch (pf : Platform) (env : Worker.Env)
    (ALLOWED_ORIGINS : option jsstring) (up : Worker.Upstream)
    (clock : Worker.Clock) (kv : Worker.KV) (request : Request)
    : Answer * Headers * Worker.KV * list Event :=
  let origin := or_default (Origin request) [] in
  let clientIP := or_default (CF_Connecting_IP request) (js "unknown") in
  let corsHeaders := getCorsHeaders origin (allowedOrigins ALLOWED_ORIGINS) in
  if jsstring_eqb (method request) (js "OPTIONS") then
    (Preflight, corsHeaders, kv, [])
  else if jsstring_eqb (pathname request) (js "/health")
          && jsstring_eqb (method request) (js "GET") then
    (Health, corsHeaders, kv, [])
  else if jsstring_eqb (pathname request) (js "/translate")
          && jsstring_eqb (method request) (js "POST") then
    let '(r, kv', ev) :=
      Worker.fetch pf env up clock kv clientIP (json request) in
    (Translate r, corsHeaders, kv', ev)
  else (NotFound, corsHeaders, kv, []).

End WorkerRoutes.

(** The body with another text. *)
Definition with_text (b : Body) (t : jsstring) : Body :=
  {| text := JString t; sourceLang := sourceLang b;
     targetLang := targetLang b; provider := provider b |}.

(** What a success response reports as the source language: the code the
    detector gave when the request left it open, else the value the
    request gave. *)
Definition reports_source (b : Body) (d : jsval) : Prop :=
  if strict_eq (sourceLang_or_auto b) (JString (js "auto"))
  then ∃ l, d = JString l ∧ test_two_lower l = true
  else d = sourceLang_or_auto b.

(** * Theorems *)

(** ** The definitions at work *)

Example trim_ex : trim (js "  a b" ++ [9%N; SP]) = js "a b".
Proof. reflexivity. Qed.

Example split_ex :
  split_LF (js "a" ++ [LF; LF] ++ js "b") = [js "a"; []; js "b"].
Proof. reflexivity. Qed.

Example split_empty_ex : split_LF [] = [[]].
Proof. reflexivity. Qed.

Example squeeze_ex :
  squeeze (js "  Hello " ++ [9%N] ++ js "  wide   world ")
  = js "Hello wide world".
Proof. reflexivity. Qed.

Example server_normalizeText_ex :
  Server.normalizeText
    (js " a   b " ++ [LF] ++ js "  " ++ [LF; LF; LF] ++ js "c" ++ 9%N :: js "d")
  = js "a b" ++ [LF; LF] ++ js "c d".
Proof. reflexivity. Qed.

Example worker_normalizeText_ex :
  Worker.normalizeText (js " a   b " ++ [LF; LF; LF] ++ js "c" ++ 9%N :: js "d")
  = js "a b c d".
Proof. reflexivity. Qed.

Example detected_ex :
  detected_or_en sample_platform (js " JA" ++ [LF]) = js "ja"
  ∧ detected_or_en sample_platform (js "Japanese") = js "en".
Proof. split; reflexivity. Qed.

Example statusCode_ex :
  Server.statusCode (js "Translation failed: quota exceeded") = 429
  ∧ Server.statusCode (js "Translation failed: timeout") = 502.
Proof. split; reflexivity. Qed.

(** ** Regular-expression replacements as one-pass scans *)

(** Inside a run of white space the scan is in its skipping state, outside
    it starts afresh: the generic replacement with [/\s+/] is
    [squeeze_run]. *)
Lemma replace_spaces_run (s : jsstring) :
  replace_from match_spaces [SP] (run is_space s) s = squeeze_run true s
  ∧ replace_from match_spaces [SP] O s = squeeze_run false s.
Proof.
  induction s as [|c t [IH1 IH2]]; [done|].
  unfold match_spaces in *. simpl.
  destruct (is_space c) eqn:Hc; simpl; rewrite ?Hc.
  - split; [exact IH1|by rewrite IH1].
  - split; by rewrite IH2.
Qed.

Lemma replace_spaces_squeeze_run (s : jsstring) :
  replace_all match_spaces [SP] s = squeeze_run false s.
Proof. apply replace_spaces_run. Qed.

Lemma squeeze_spec (s : jsstring) : squeeze s = squeeze_run false (trim s).
Proof. apply replace_spaces_squeeze_run. Qed.

Lemma run_LF_cons (c : N) (t : jsstring) :
  is_LF c = true → run is_LF (c :: t) = S (run is_LF t).
Proof. simpl. by intros ->. Qed.

Lemma is_LF_eq (c : N) : is_LF c = true → c = LF.
Proof. unfold is_LF. intros H. by apply N.eqb_eq in H. Qed.

Lemma is_LF_space (c : N) : is_LF c = true → is_space c = true.
Proof. intros H. by rewrite (is_LF_eq _ H). Qed.

Lemma match_3LF_short (s : jsstring) :
  (run is_LF s < 3)%nat → match_3LF s = O.
Proof.
  intros H. unfold match_3LF.
  destruct (3 <=? run is_LF s)%nat eqn:H3; [|done].
  apply Nat.leb_le in H3. lia.
Qed.

(** The generic replacement with [/\n{3,}/] is [cap_LF]: in a matched run
    every further line feed is dropped (state 2); in a run too short to
    match they are all kept. *)
Lemma replace_3LF_cap (s : jsstring) :
  replace_from match_3LF [LF; LF] (run is_LF s) s = cap_LF 2 s
  ∧ (∀ n, (n + run is_LF s < 3)%nat →
          replace_from match_3LF [LF; LF] O s = cap_LF n s)
  ∧ replace_from match_3LF [LF; LF] O s = cap_LF O s.
Proof.
  induction s as [|c t (IH1 & IH2 & IH3)]; [done|].
  destruct (is_LF c) eqn:Hc.
  - rewrite (run_LF_cons _ _ Hc). split; [|split].
    + simpl. rewrite Hc. exact IH1.
    + intros n Hn. cbn [replace_from].
      rewrite match_3LF_short by (rewrite (run_LF_cons _ _ Hc); lia).
      simpl. rewrite Hc.
      destruct (n <? 2)%nat eqn:Hn2; [|apply Nat.ltb_ge in Hn2; lia].
      f_equal. apply IH2. lia.
    + cbn [replace_from]. unfold match_3LF at 1.
      rewrite (run_LF_cons _ _ Hc).
      destruct (3 <=? S (run is_LF t))%nat eqn:H3.
      * apply Nat.leb_le in H3.
        destruct t as [|d u]; [simpl in H3; lia|].
        destruct (is_LF d) eqn:Hd; [|simpl in H3; rewrite Hd in H3; lia].
        rewrite (run_LF_cons _ _ Hd) in IH1. cbn [replace_from] in IH1.
        rewrite (run_LF_cons _ _ Hd). cbn [replace_from cap_LF].
        rewrite Hc, Hd. simpl.
        rewrite (is_LF_eq _ Hc), (is_LF_eq _ Hd). do 2 f_equal.
        rewrite IH1. cbn [cap_LF]. by rewrite Hd.
      * apply Nat.leb_gt in H3. simpl. rewrite Hc. f_equal. apply IH2. lia.
  - assert (Hm : match_3LF (c :: t) = O)
      by (apply match_3LF_short; simpl; rewrite Hc; lia).
    cbn [run replace_from cap_LF]. rewrite Hc, Hm.
    split; [|split]; intros; by rewrite IH3.
Qed.

Lemma replace_3LF_cap_LF (s : jsstring) :
  replace_all match_3LF [LF; LF] s = cap_LF O s.
Proof. apply replace_3LF_cap. Qed.

Lemma server_normalizeText_spec (x : jsstring) :
  Server.normalizeText x = cap_LF O (squeeze_lines x).
Proof. apply replace_3LF_cap_LF. Qed.

(** ** Trimming and collapsing a line *)

Lemma trimEnd_snoc (s : jsstring) (c : N) :
  trimEnd (s ++ [c]) = if is_space c then trimEnd s else s ++ [c].
Proof.
  induction s as [|a s IH]; [simpl; by destruct (is_space c)|].
  cbn [app trimEnd]. rewrite IH.
  destruct (is_space c); [done|]. by destruct s.
Qed.

(** [trimEnd] is [trimStart] read from the right. *)
Lemma trimEnd_rev (s : jsstring) : trimEnd s = rev (trimStart (rev s)).
Proof.
  induction s as [|c s IH] using rev_ind; [done|].
  rewrite trimEnd_snoc, rev_app_distr. cbn [rev app trimStart].
  destruct (is_space c); [exact IH|].
  cbn [rev]. by rewrite rev_involutive.
Qed.

Lemma trimEnd_cons_inv (c : N) (t : jsstring) :
  trimEnd (c :: t) = c :: t →
  (t = [] ∧ is_space c = false) ∨ (t ≠ [] ∧ trimEnd t = t).
Proof.
  simpl. destruct (trimEnd t) as [|d r] eqn:Ht.
  - destruct (is_space c); [done|]. intros [= <-]. by left.
  - intros [= <-]. by right.
Qed.

Lemma trimEnd_head (c : N) (t : jsstring) :
  trimEnd (c :: t) = [] ∨ ∃ r, trimEnd (c :: t) = c :: r.
Proof.
  simpl. destruct (trimEnd t); [destruct (is_space c)|]; eauto.
Qed.

Lemma trimEnd_idem (s : jsstring) : trimEnd (trimEnd s) = trimEnd s.
Proof.
  induction s as [|c t IH]; [done|]. simpl.
  destruct (trimEnd t) as [|d r] eqn:Ht.
  - destruct (is_space c) eqn:Hc; [done|]. simpl. by rewrite Hc.
  - cbn [trimEnd] in *. by rewrite IH.
Qed.

Lemma trimStart_starts_clean (s : jsstring) :
  starts_clean (trimStart s) = true.
Proof.
  induction s as [|c t IH]; [done|]. simpl.
  destruct (is_space c) eqn:Hc; [done|]. simpl. by rewrite Hc.
Qed.

Lemma trimStart_clean (s : jsstring) :
  starts_clean s = true → trimStart s = s.
Proof. destruct s as [|c t]; [done|]. simpl. by destruct (is_space c). Qed.

Lemma trim_starts_clean (s : jsstring) : starts_clean (trim s) = true.
Proof.
  unfold trim. pose proof (trimStart_starts_clean s) as H.
  destruct (trimStart s) as [|c t]; [done|].
  destruct (trimEnd_head c t) as [->|[r ->]]; done.
Qed.

Lemma trim_trimEnd (s : jsstring) : trimEnd (trim s) = trim s.
Proof. apply trimEnd_idem. Qed.

Lemma squeeze_run_true_head (s : jsstring) :
  starts_clean (squeeze_run true s) = true.
Proof.
  induction s as [|c t IH]; [done|]. simpl.
  destruct (is_space c) eqn:Hc; [done|]. simpl. by rewrite Hc.
Qed.

Lemma squeeze_run_true_nil (s : jsstring) :
  squeeze_run true s = [] → trimEnd s = [].
Proof.
  induction s as [|c t IH]; [done|]. simpl.
  destruct (is_space c) eqn:Hc; [|done]. intros H. by rewrite (IH H).
Qed.

(** Collapsing a text that does not end in white space leaves only single
    spaces, each before a code unit that is not white space. *)
Lemma squeeze_run_tidy (s : jsstring) (b : bool) :
  trimEnd s = s → tidy (squeeze_run b s) = true.
Proof.
  revert b. induction s as [|c t IH]; intros b H; [done|].
  apply trimEnd_cons_inv in H as [[-> Hc]|[Hne Ht]].
  - simpl. rewrite Hc. simpl. by rewrite Hc.
  - simpl. destruct (is_space c) eqn:Hc.
    + destruct b; [by apply IH|].
      simpl. rewrite (IH true Ht), (squeeze_run_true_head t).
      destruct (squeeze_run true t) eqn:Hs; [|done].
      apply squeeze_run_true_nil in Hs. congruence.
    + simpl. rewrite Hc. by apply IH.
Qed.

Lemma squeeze_run_starts_clean (s : jsstring) :
  starts_clean s = true → starts_clean (squeeze_run false s) = true.
Proof.
  destruct s as [|c t]; [done|]. simpl.
  destruct (is_space c) eqn:Hc; [done|]. simpl. by rewrite Hc.
Qed.

Lemma tidy_trimEnd (s : jsstring) : tidy s = true → trimEnd s = s.
Proof.
  induction s as [|c t IH]; [done|]. simpl.
  destruct (is_space c) eqn:Hc.
  - intros H. repeat (apply andb_true_iff in H as [H ?]).
    rewrite IH by done. destruct t; done.
  - intros H. rewrite IH by done. destruct t; done.
Qed.

Lemma tidy_squeeze_run (s : jsstring) :
  tidy s = true → squeeze_run false s = s.
Proof.
  induction s as [|c t IH]; [done|]. simpl.
  destruct (is_space c) eqn:Hc.
  - intros H. repeat (apply andb_true_iff in H as [H ?]).
    apply N.eqb_eq in H. subst c. f_equal.
    specialize (IH ltac:(done)).
    destruct t as [|d u]; [done|]. simpl in *.
    destruct (is_space d); [done|]. exact IH.
  - intros H. by rewrite IH.
Qed.

Lemma tidy_LF_free (s : jsstring) : tidy s = true → LF_free s = true.
Proof.
  induction s as [|c t IH]; [done|]. simpl.
  destruct (is_space c) eqn:Hc.
  - intros H. repeat (apply andb_true_iff in H as [H ?]).
    apply N.eqb_eq in H. subst c. by rewrite IH.
  - intros H. rewrite IH by done.
    destruct (is_LF c) eqn:HL; [|done]. apply is_LF_space in HL. congruence.
Qed.

Lemma squeeze_tidy (s : jsstring) :
  tidy (squeeze s) = true ∧ starts_clean (squeeze s) = true.
Proof.
  rewrite squeeze_spec. split.
  - apply squeeze_run_tidy, trim_trimEnd.
  - apply squeeze_run_starts_clean, trim_starts_clean.
Qed.

Lemma squeeze_fixed (s : jsstring) :
  tidy s = true → starts_clean s = true → squeeze s = s.
Proof.
  intros Ht Hs. rewrite squeeze_spec. unfold trim.
  rewrite (trimStart_clean _ Hs), (tidy_trimEnd _ Ht).
  by apply tidy_squeeze_run.
Qed.

Lemma squeeze_idem (s : jsstring) : squeeze (squeeze s) = squeeze s.
Proof. destruct (squeeze_tidy s). by apply squeeze_fixed. Qed.

Lemma squeeze_LF_free (l : jsstring) : LF_free (squeeze l) = true.
Proof. apply tidy_LF_free, squeeze_tidy. Qed.

(** ** Splitting into lines and joining them *)

Lemma split_LF_nonempty (s : jsstring) : split_LF s ≠ [].
Proof.
  destruct s as [|c t]; [done|]. simpl.
  destruct (is_LF c); [done|]. by destruct (split_LF t).
Qed.

Lemma split_LF_free (l : jsstring) : LF_free l = true → split_LF l = [l].
Proof.
  induction l as [|c t IH]; [done|]. simpl.
  destruct (is_LF c); [done|]. intros H. by rewrite IH.
Qed.

Lemma split_LF_app (l rest : jsstring) :
  LF_free l = true → split_LF (l ++ LF :: rest) = l :: split_LF rest.
Proof.
  induction l as [|c t IH]; [done|]. simpl.
  destruct (is_LF c); [done|]. intros H. by rewrite IH.
Qed.

Lemma split_join (ls : list jsstring) :
  ls ≠ [] → Forall (λ l, LF_free l = true) ls →
  split_LF (join_LF ls) = ls.
Proof.
  induction ls as [|l ls IH]; [done|]. intros _ H.
  apply list.Forall_cons in H as [Hl Hls].
  destruct ls as [|l' ls'].
  - simpl. by apply split_LF_free.
  - change (join_LF (l :: l' :: ls')) with (l ++ LF :: join_LF (l' :: ls')).
    rewrite split_LF_app by done. f_equal. by apply IH.
Qed.

Lemma join_split (s : jsstring) : join_LF (split_LF s) = s.
Proof.
  induction s as [|c t IH]; [done|]. simpl.
  pose proof (split_LF_nonempty t) as Hne.
  destruct (split_LF t) as [|l ls] eqn:Ht; [done|].
  destruct (is_LF c) eqn:Hc.
  - apply is_LF_eq in Hc. subst c. simpl. simpl in IH. by rewrite IH.
  - rewrite <- IH. by destruct ls.
Qed.

Lemma split_join_squeeze (ls : list jsstring) :
  ls ≠ [] → split_LF (join_LF (List.map squeeze ls)) = List.map squeeze ls.
Proof.
  intros H. apply split_join.
  - by destruct ls.
  - apply Forall_forall. intros l Hl.
    apply in_map_iff in Hl as (l0 & <- & _). apply squeeze_LF_free.
Qed.

Lemma line_count_count (s : jsstring) : line_count s = S (count_LF s).
Proof.
  unfold line_count. induction s as [|c t IH]; [done|]. simpl.
  destruct (is_LF c); [simpl; by rewrite IH|].
  destruct (split_LF t); [done|]. simpl in *. done.
Qed.

(** The line-wise stage keeps the number of lines. *)
Lemma squeeze_lines_line_count (x : jsstring) :
  line_count (squeeze_lines x) = line_count x.
Proof.
  unfold line_count, squeeze_lines.
  rewrite split_join_squeeze by apply split_LF_nonempty. apply length_map.
Qed.

Lemma squeeze_lines_fixed (z : jsstring) :
  Forall (λ l, squeeze l = l) (split_LF z) → squeeze_lines z = z.
Proof.
  intros H. unfold squeeze_lines.
  rewrite <- (join_split z) at 2. f_equal.
  induction H as [|l ls Hl _ IH]; [done|]. simpl. by rewrite Hl, IH.
Qed.

(** ** Capping the runs of line feeds *)

Lemma cap_LF_le (s : jsstring) (n : nat) :
  (count_LF (cap_LF n s) ≤ count_LF s)%nat.
Proof.
  revert n. induction s as [|c t IH]; intros n; [done|]. simpl.
  destruct (is_LF c) eqn:Hc.
  - pose proof (IH n). pose proof (IH (S n)).
    destruct (n <? 2)%nat; simpl; rewrite ?Hc; lia.
  - simpl. rewrite Hc. apply IH.
Qed.

Lemma startsWith_3LF_run (s : jsstring) :
  startsWith [LF; LF; LF] s = (3 <=? run is_LF s)%nat.
Proof.
  unfold is_LF.
  destruct s as [|a [|b [|c u]]]; cbn -[N.eqb Nat.leb];
    rewrite ?(N.eqb_sym LF);
    repeat (destruct (_ =? LF)%N; cbn -[N.eqb Nat.leb]; try done);
    reflexivity.
Qed.

Lemma has_3LF_cons (c : N) (t : jsstring) :
  has_3LF (c :: t) = false →
  (run is_LF (c :: t) < 3)%nat ∧ has_3LF t = false.
Proof.
  unfold has_3LF. cbn [includes]. intros [H1 H2]%orb_false_iff.
  rewrite startsWith_3LF_run in H1. apply Nat.leb_gt in H1. done.
Qed.

Lemma has_3LF_run (s : jsstring) :
  has_3LF s = false → (run is_LF s < 3)%nat.
Proof.
  destruct s as [|c t]; [simpl; lia|]. by intros [H _]%has_3LF_cons.
Qed.

(** Without three line feeds in a row nothing is removed. *)
Lemma cap_LF_id (s : jsstring) (n : nat) :
  (n + run is_LF s < 3)%nat → has_3LF s = false → cap_LF n s = s.
Proof.
  revert n. induction s as [|c t IH]; intros n Hn H; [done|].
  apply has_3LF_cons in H as [_ H]. simpl in *.
  destruct (is_LF c) eqn:Hc.
  - destruct (n <? 2)%nat eqn:Hn2; [|apply Nat.ltb_ge in Hn2; lia].
    f_equal. apply IH; [lia|done].
  - f_equal. apply IH; [|done]. by apply has_3LF_run.
Qed.

(** With three line feeds in a row at least one is removed. *)
Lemma cap_LF_lt (s : jsstring) (n : nat) :
  has_3LF s = true → (count_LF (cap_LF n s) < count_LF s)%nat.
Proof.
  unfold has_3LF.
  revert n. induction s as [|c t IH]; intros n H; [done|].
  cbn [includes] in H. apply orb_true_iff in H as [H|H].
  - rewrite startsWith_3LF_run in H. apply Nat.leb_le in H.
    destruct (is_LF c) eqn:Hc; [|simpl in H; rewrite Hc in H; lia].
    destruct t as [|d [|e u]];
      try (simpl in H; rewrite Hc in H; simpl in H; lia).
    + simpl in H. rewrite Hc in H. destruct (is_LF d); simpl in H; lia.
    + destruct (is_LF d) eqn:Hd; [|simpl in H; rewrite Hc, Hd in H; lia].
      destruct (is_LF e) eqn:He;
        [|simpl in H; rewrite Hc, Hd, He in H; lia].
      pose proof (cap_LF_le u 2). pose proof (cap_LF_le u n).
      simpl. rewrite Hc, Hd, He.
      destruct n as [|[|n]]; simpl; rewrite ?Hc, ?Hd, ?He; simpl;
        rewrite ?Hc, ?Hd, ?He; lia.
  - pose proof (IH n H). pose proof (IH (S n) H). pose proof (IH O H).
    simpl. destruct (is_LF c) eqn:Hc; [destruct (n <? 2)%nat|]; simpl;
      rewrite ?Hc; lia.
Qed.

Lemma cap_LF_idem (s : jsstring) (n : nat) :
  cap_LF n (cap_LF n s) = cap_LF n s.
Proof.
  revert n. induction s as [|c t IH]; intros n; [done|]. simpl.
  destruct (is_LF c) eqn:Hc.
  - destruct (n <? 2)%nat eqn:Hn; [|by apply IH].
    simpl. rewrite Hc, Hn. by rewrite IH.
  - simpl. rewrite Hc. by rewrite IH.
Qed.

Lemma cap_LF_first_line (t : jsstring) :
  head (split_LF (cap_LF O t)) = head (split_LF t).
Proof.
  induction t as [|c t IH]; [done|]. simpl.
  destruct (is_LF c) eqn:Hc; simpl; rewrite Hc; [done|].
  pose proof (split_LF_nonempty (cap_LF O t)).
  pose proof (split_LF_nonempty t).
  destruct (split_LF (cap_LF O t)) as [|l ls]; [done|].
  destruct (split_LF t) as [|l' ls']; [done|].
  simpl in *. congruence.
Qed.

(** A property of lines that holds of the empty line and of every line of
    [s] holds of every line of [cap_LF n s]: capping only removes empty
    lines. *)
Section cap_lines.
Context (P : jsstring → Prop) (Pnil : P []).

Lemma cap_LF_head_line (s : jsstring) (n : nat) (l : jsstring) :
  Forall P (split_LF s) → head (split_LF (cap_LF n s)) = Some l → P l.
Proof.
  revert n. induction s as [|c t IH]; intros n H Hl.
  - simpl in Hl. by injection Hl as <-.
  - simpl in *. destruct (is_LF c) eqn:Hc.
    + apply list.Forall_cons in H as [_ H].
      destruct (n <? 2)%nat; [|by eapply IH].
      simpl in Hl. rewrite Hc in Hl. by injection Hl as <-.
    + simpl in Hl. rewrite Hc in Hl.
      pose proof (cap_LF_first_line t) as Hh.
      pose proof (split_LF_nonempty (cap_LF O t)).
      pose proof (split_LF_nonempty t).
      destruct (split_LF t) as [|l0 ls]; [done|].
      destruct (split_LF (cap_LF O t)) as [|l1 ls1]; [done|].
      simpl in *. injection Hh as ->. injection Hl as <-.
      by apply list.Forall_cons in H as [H _].
Qed.

Lemma cap_LF_tail_lines (s : jsstring) (n : nat) :
  Forall P (tail (split_LF s)) → Forall P (tail (split_LF (cap_LF n s))).
Proof.
  revert n. induction s as [|c t IH]; intros n H; [done|].
  simpl in *. destruct (is_LF c) eqn:Hc.
  - assert (Forall P (tail (split_LF t))) as Ht.
    { destruct (split_LF t); [done|].
      by apply list.Forall_cons in H as [_ H]. }
    destruct (n <? 2)%nat; [|by apply IH]. simpl. rewrite Hc. simpl.
    destruct (split_LF (cap_LF (S n) t)) as [|l1 ls1] eqn:H1; [done|].
    apply list.Forall_cons. split.
    + apply (cap_LF_head_line t (S n)); [done|]. by rewrite H1.
    + specialize (IH (S n) Ht). by rewrite H1 in IH.
  - simpl. rewrite Hc.
    pose proof (split_LF_nonempty t).
    destruct (split_LF t) as [|l0 ls]; [done|].
    specialize (IH O H).
    destruct (split_LF (cap_LF O t)) as [|l1 ls1]; done.
Qed.

Lemma cap_LF_lines (s : jsstring) (n : nat) :
  Forall P (split_LF s) → Forall P (split_LF (cap_LF n s)).
Proof.
  intros H.
  pose proof (cap_LF_head_line s n) as Hh.
  pose proof (cap_LF_tail_lines s n) as Ht.
  destruct (split_LF (cap_LF n s)) as [|l1 ls1] eqn:H1; [done|].
  apply list.Forall_cons. split.
  - by apply Hh.
  - apply Ht. destruct (split_LF s); [done|].
    by apply list.Forall_cons in H as [_ H].
Qed.

End cap_lines.

(** ** Line counts *)

(** The worker's [normalizeText] treats line feeds as any other white
    space: what it returns is a single line. *)
Lemma worker_normalizeText_one_line (x : jsstring) :
  line_count (Worker.normalizeText x) = 1%nat.
Proof.
  unfold line_count, Worker.normalizeText.
  by rewrite split_LF_free by apply squeeze_LF_free.
Qed.

(** C1, as stated, fails: a text of four lines, two of them blank and
    adjacent, comes out of the server's [normalizeText] with three. *)
Lemma C1_blank_lines_are_dropped :
  line_count (js "a" ++ [LF; LF; LF] ++ js "b") = 4%nat
  ∧ line_count (Server.normalizeText (js "a" ++ [LF; LF; LF] ++ js "b"))
    = 3%nat.
Proof. split; vm_compute; reflexivity. Qed.

(** C1, amended: the server's [normalizeText] never adds a line, and keeps
    the number of lines exactly when the text, once every line is trimmed
    and its white space collapsed, has no three line feeds in a row. *)
Theorem C1_normalizeText_line_count (x : jsstring) :
  (line_count (Server.normalizeText x) ≤ line_count x)%nat
  ∧ (line_count (Server.normalizeText x) = line_count x
     ↔ has_3LF (squeeze_lines x) = false).
Proof.
  split;
    rewrite server_normalizeText_spec, <- (squeeze_lines_line_count x),
      !line_count_count;
    pose proof (cap_LF_le (squeeze_lines x) O) as Hle; [lia|].
  split.
  - intros Heq. destruct (has_3LF (squeeze_lines x)) eqn:H3; [|done].
    pose proof (cap_LF_lt (squeeze_lines x) O H3). lia.
  - intros H3. rewrite cap_LF_id; [done| |done].
    apply has_3LF_run in H3. lia.
Qed.

Lemma C1_normalizeText_line_count_witness :
  line_count (Server.normalizeText (js " a " ++ [LF; LF] ++ js "b  c"))
  = line_count (js " a " ++ [LF; LF] ++ js "b  c").
Proof.
  apply (C1_normalizeText_line_count (js " a " ++ [LF; LF] ++ js "b  c")).
  vm_compute. reflexivity.
Defined.

(** ** Idempotence *)

Lemma server_normalizeText_idem (x : jsstring) :
  Server.normalizeText (Server.normalizeText x) = Server.normalizeText x.
Proof.
  rewrite !server_normalizeText_spec.
  rewrite squeeze_lines_fixed; [apply cap_LF_idem|].
  apply cap_LF_lines; [done|].
  unfold squeeze_lines. rewrite split_join_squeeze by apply split_LF_nonempty.
  apply Forall_forall. intros l Hl. apply in_map_iff in Hl as (l0 & <- & _).
  apply squeeze_idem.
Qed.

Lemma worker_normalizeText_idem (x : jsstring) :
  Worker.normalizeText (Worker.normalizeText x) = Worker.normalizeText x.
Proof. apply squeeze_idem. Qed.

(** C10: [normalizeText] is idempotent, in the server and in the worker, and
    so the cache key computed from a normalized text does not change when
    the text is normalized again. *)
Theorem C10_normalizeText_idempotent (x : jsstring) :
  Server.normalizeText (Server.normalizeText x) = Server.normalizeText x
  ∧ Worker.normalizeText (Worker.normalizeText x) = Worker.normalizeText x
  ∧ ∀ (pf : Platform) (sourceLang targetLang provider : jsval),
      generateCacheKey pf (Server.normalizeText (Server.normalizeText x))
        sourceLang targetLang provider
      = generateCacheKey pf (Server.normalizeText x)
          sourceLang targetLang provider
      ∧ generateCacheKey pf (Worker.normalizeText (Worker.normalizeText x))
          sourceLang targetLang provider
        = generateCacheKey pf (Worker.normalizeText x)
            sourceLang targetLang provider.
Proof.
  split; [apply server_normalizeText_idem|].
  split; [apply worker_normalizeText_idem|].
  intros. by rewrite server_normalizeText_idem, worker_normalizeText_idem.
Qed.

(** ** The validator *)

Lemma not_false_true (b : bool) : b ≠ false → b = true.
Proof. by destruct b. Qed.

Lemma text_invalid_false (v : jsval) :
  text_invalid v = false ↔ is_nonblank_string v.
Proof.
  unfold text_invalid, is_nonblank_string. split.
  - destruct v as [| |b|z|s|]; simpl; rewrite ?orb_true_r; try done.
    intros H. apply orb_false_iff in H as [_ H].
    exists s. split; [done|]. intros Hs. by rewrite Hs in H.
  - intros (s & -> & Hs). simpl.
    destruct s as [|c s]; [done|]. simpl.
    destruct (trim (c :: s)); done.
Qed.

Lemma server_targetLang_invalid_false (v : jsval) :
  Server.targetLang_invalid v = false ↔ is_nonempty_string v.
Proof.
  unfold Server.targetLang_invalid, is_nonempty_string. split.
  - destruct v as [| |b|z|s|]; simpl; rewrite ?orb_true_r; try done.
    intros H. exists s. split; [done|]. by intros ->.
  - intros (s & -> & Hs). by destruct s.
Qed.

Lemma worker_targetLang_invalid_false (v : jsval) :
  Worker.targetLang_invalid v = false ↔ truthy v = true.
Proof. unfold Worker.targetLang_invalid. apply negb_false_iff. Qed.

Lemma jsstring_eqb_eq (a b : jsstring) : jsstring_eqb a b = true ↔ a = b.
Proof. unfold jsstring_eqb. apply bool_decide_eq_true. Qed.

Lemma strict_eq_string (v : jsval) (s : jsstring) :
  strict_eq v (JString s) = true ↔ v = JString s.
Proof.
  destruct v; simpl; try (split; done).
  rewrite jsstring_eqb_eq. split; [by intros ->|by intros [= ->]].
Qed.

Lemma provider_invalid_false (v : jsval) :
  provider_invalid v = false ↔ is_gemini v.
Proof.
  unfold provider_invalid, is_gemini. rewrite negb_false_iff.
  apply strict_eq_string.
Qed.

Lemma server_valid_inv (body : Body) :
  Server.valid body = true →
  text_invalid (text body) = false
  ∧ Server.targetLang_invalid (targetLang body) = false
  ∧ provider_invalid (provider body) = false.
Proof.
  unfold Server.valid. intros H.
  apply andb_true_iff in H as [H H3]. apply andb_true_iff in H as [H1 H2].
  by apply negb_true_iff in H1, H2, H3.
Qed.

Lemma worker_valid_inv (body : Body) :
  Worker.valid body = true →
  text_invalid (text body) = false
  ∧ Worker.targetLang_invalid (targetLang body) = false
  ∧ provider_invalid (provider body) = false.
Proof.
  unfold Worker.valid. intros H.
  apply andb_true_iff in H as [H H3]. apply andb_true_iff in H as [H1 H2].
  by apply negb_true_iff in H1, H2, H3.
Qed.

Section server_validator.
Context (pf : Platform) (cfg : Server.Config) (up : Server.Upstream)
  (clock : Server.Clock) (cache : cache_map) (body : Body).

(** An error of [translateText] is answered 401, 429 or 502, according to
    the words of its message. *)
Lemma server_statusCode_translateText (m : jsstring) :
  Server.statusCode (js "Translation failed: " ++ m)
  = if includes (js "API key") (js "Translation failed: " ++ m) then 401
    else if includes (js "quota") (js "Translation failed: " ++ m) then 429
    else 502.
Proof. unfold Server.statusCode. by repeat case_match. Qed.

(** A body that passes the three checks is answered 200, or 401, 429 or
    502 when the translation service fails. *)
Lemma server_valid_status :
  Server.valid body = true →
  status (Server.post_translate pf cfg up clock cache body).1.1
  ∈ [200; 401; 429; 502].
Proof.
  intros (H1 & H2 & H3)%server_valid_inv.
  unfold Server.post_translate. rewrite H1, H2, H3.
  destruct (Server.resolve_source _ _ _ _ _) as [d ev].
  destruct (strict_eq d (targetLang body)); [simpl; set_solver|].
  destruct (Server.cache_get _ _ _ _); [simpl; set_solver|].
  unfold Server.translateText.
  destruct (Server.translate_reply _ _ _ _ _) as [r|m]; [simpl; set_solver|].
  cbn [fst status Server.service_error].
  rewrite server_statusCode_translateText.
  repeat case_match; set_solver.
Qed.

(** The handler of the server never answers with status 500. *)
Lemma server_status :
  status (Server.post_translate pf cfg up clock cache body).1.1
  ∈ [200; 400; 401; 429; 502].
Proof.
  destruct (Server.valid body) eqn:Hv.
  - pose proof (server_valid_status Hv) as H.
    rewrite !elem_of_cons in H. rewrite !elem_of_cons. tauto.
  - unfold Server.valid in Hv. unfold Server.post_translate.
    destruct (text_invalid _); [simpl; rewrite !elem_of_cons; tauto|].
    destruct (Server.targetLang_invalid _);
      [simpl; rewrite !elem_of_cons; tauto|].
    destruct (provider_invalid _); [simpl; rewrite !elem_of_cons; tauto|done].
Qed.

(** In the server the first of [text], [targetLang], [provider] that fails
    decides the answer, each field being held to the condition the
    specification states, and a body that passes the three checks is not
    answered with status 400. *)
Lemma server_validation_first_failure :
  (¬ is_nonblank_string (text body) →
   Server.post_translate pf cfg up clock cache body = (text_error, cache, []))
  ∧ (is_nonblank_string (text body) →
     ¬ is_nonempty_string (targetLang body) →
     Server.post_translate pf cfg up clock cache body
     = (targetLang_error, cache, []))
  ∧ (is_nonblank_string (text body) →
     is_nonempty_string (targetLang body) →
     ¬ is_gemini (provider body) →
     Server.post_translate pf cfg up clock cache body
     = (provider_error, cache, []))
  ∧ (is_nonblank_string (text body) →
     is_nonempty_string (targetLang body) →
     is_gemini (provider body) →
     status (Server.post_translate pf cfg up clock cache body).1.1
     ∈ [200; 401; 429; 502]).
Proof.
  rewrite <- text_invalid_false, <- server_targetLang_invalid_false,
    <- provider_invalid_false.
  split; [|split; [|split]].
  - intros H%not_false_true. unfold Server.post_translate. by rewrite H.
  - intros H1 H2%not_false_true. unfold Server.post_translate.
    by rewrite H1, H2.
  - intros H1 H2 H3%not_false_true. unfold Server.post_translate.
    by rewrite H1, H2, H3.
  - intros H1 H2 H3. apply server_valid_status. unfold Server.valid.
    by rewrite H1, H2, H3.
Qed.

(** A request without [text] and without [targetLang] is refused for its
    [text]. *)
Lemma server_missing_text_and_targetLang (s p : jsval) :
  Server.post_translate pf cfg up clock cache
    {| text := JUndefined; sourceLang := s; targetLang := JUndefined;
       provider := p |}
  = (text_error, cache, []).
Proof. done. Qed.

End server_validator.

Section worker_validator.
Context (pf : Platform) (env : Worker.Env) (up : Worker.Upstream)
  (clock : Worker.Clock) (kv : Worker.KV) (ip : jsstring) (body : Body).

(** A request the rate limiter refuses is answered 429, whatever its
    body. *)
Lemma worker_fetch_rejected (raw : Worker.RawBody) :
  Worker.admits clock kv ip = false →
  Worker.fetch pf env up clock kv ip raw
  = (TooManyRequests (js "Too many requests")
       (Worker.retryAfter
          (Worker.checkRateLimit (Worker.now_arrival clock)
             (Worker.windows kv) ip).1),
     Worker.counted clock kv ip, [EvRateLimit ip]).
Proof.
  unfold Worker.admits, Worker.counted, Worker.fetch.
  destruct (Worker.checkRateLimit _ _ _) as [rl w]. simpl.
  by intros ->.
Qed.

(** A request the rate limiter admits and the validator accepts goes
    through [translate_valid]. *)
Lemma worker_fetch_allowed :
  Worker.admits clock kv ip = true →
  Worker.valid body = true →
  Worker.fetch pf env up clock kv ip (Worker.Parsed body)
  = let r := Worker.translate_valid pf env up clock
               (Worker.counted clock kv ip) body in
    (r.1.1, r.1.2, EvRateLimit ip :: r.2).
Proof.
  intros Ha (H1 & H2 & H3)%worker_valid_inv.
  unfold Worker.admits, Worker.counted, Worker.fetch in *.
  destruct (Worker.checkRateLimit _ _ _) as [rl w]. simpl in *.
  rewrite Ha, H1, H2, H3. simpl.
  by destruct (Worker.translate_valid _ _ _ _ _ _) as [[r k] e].
Qed.

Lemma worker_fetch_invalid :
  Worker.admits clock kv ip = true →
  Worker.valid body = false →
  status (Worker.fetch pf env up clock kv ip (Worker.Parsed body)).1.1 = 400.
Proof.
  unfold Worker.admits, Worker.valid, Worker.fetch.
  destruct (Worker.checkRateLimit _ _ _) as [rl w]. simpl.
  intros -> Hv. simpl.
  destruct (text_invalid _); [done|].
  destruct (Worker.targetLang_invalid _); [done|].
  destruct (provider_invalid _); done.
Qed.

(** The worker checks the same fields in the same order, but asks of
    [targetLang] only that it be truthy. *)
Lemma worker_validation_first_failure :
  Worker.admits clock kv ip = true →
  (¬ is_nonblank_string (text body) →
   (Worker.fetch pf env up clock kv ip (Worker.Parsed body)).1.1 = text_error)
  ∧ (is_nonblank_string (text body) → truthy (targetLang body) = false →
     (Worker.fetch pf env up clock kv ip (Worker.Parsed body)).1.1
     = targetLang_error)
  ∧ (is_nonblank_string (text body) → truthy (targetLang body) = true →
     ¬ is_gemini (provider body) →
     (Worker.fetch pf env up clock kv ip (Worker.Parsed body)).1.1
     = provider_error).
Proof.
  rewrite <- text_invalid_false, <- provider_invalid_false.
  unfold Worker.admits, Worker.fetch, Worker.targetLang_invalid.
  destruct (Worker.checkRateLimit _ _ _) as [rl w]. simpl.
  intros ->. cbn [negb].
  split; [|split].
  - intros H%not_false_true. by rewrite H.
  - intros H1 H2. by rewrite H1, H2.
  - intros H1 H2 H3%not_false_true. by rewrite H1, H2, H3.
Qed.

End worker_validator.

(** C6 at the failing input: a body whose [targetLang] is the number 42,
    not a string; the server refuses it with the [targetLang] error, the
    worker lets it through and answers with a translation. *)
Theorem C6_worker_accepts_a_number_as_targetLang :
  let body := request "Hello" (lang "en") (JNumber 42) "gemini" in
  (Worker.fetch sample_platform WorkerSample.env WorkerSample.up
     (WorkerSample.clock 0) WorkerSample.empty_kv client
     (Worker.Parsed body)).1.1
  = Success (js "Xin chao the gioi") false (lang "en")
  ∧ (Server.post_translate sample_platform ServerSample.cfg ServerSample.up
       (ServerSample.clock 0) ∅ body).1.1
    = targetLang_error.
Proof. split; vm_compute; reflexivity. Qed.

(** ** The rate limiter of the worker *)

Section rate_limiter.
Context (m : window_map) (ip : jsstring) (now : Z).

Lemma checkRateLimit_first :
  Worker.kv_get now m ip = None →
  Worker.checkRateLimit now m ip
  = (verdict true (Worker.RATE_LIMIT_MAX - 1) None,
     Worker.kv_put now m ip (new_window now) Worker.RATE_LIMIT_WINDOW).
Proof. unfold Worker.checkRateLimit. by intros ->. Qed.

Lemma checkRateLimit_elapsed (d : Worker.RateData) :
  Worker.kv_get now m ip = Some d →
  now - Worker.windowStart d > Worker.RATE_LIMIT_WINDOW * 1000 →
  Worker.checkRateLimit now m ip
  = (verdict true (Worker.RATE_LIMIT_MAX - 1) None,
     Worker.kv_put now m ip (new_window now) Worker.RATE_LIMIT_WINDOW).
Proof.
  unfold Worker.checkRateLimit. intros -> H.
  by destruct (Z.ltb_spec (Worker.windowStart d)
                 (now - Worker.RATE_LIMIT_WINDOW * 1000)); [|lia].
Qed.

Lemma checkRateLimit_full (d : Worker.RateData) :
  Worker.kv_get now m ip = Some d →
  now - Worker.windowStart d ≤ Worker.RATE_LIMIT_WINDOW * 1000 →
  Worker.RATE_LIMIT_MAX ≤ Worker.count d →
  Worker.checkRateLimit now m ip
  = (verdict false 0 (Some Worker.RATE_LIMIT_WINDOW), m).
Proof.
  unfold Worker.checkRateLimit. intros -> H Hc.
  destruct (Z.ltb_spec (Worker.windowStart d)
              (now - Worker.RATE_LIMIT_WINDOW * 1000)); [lia|].
  by destruct (Z.leb_spec Worker.RATE_LIMIT_MAX (Worker.count d)); [|lia].
Qed.

Lemma checkRateLimit_room (d : Worker.RateData) :
  Worker.kv_get now m ip = Some d →
  now - Worker.windowStart d ≤ Worker.RATE_LIMIT_WINDOW * 1000 →
  Worker.count d < Worker.RATE_LIMIT_MAX →
  Worker.checkRateLimit now m ip
  = (verdict true (Worker.RATE_LIMIT_MAX - Worker.count d - 1) None,
     Worker.kv_put now m ip
       {| Worker.count := Worker.count d + 1;
          Worker.windowStart := Worker.windowStart d |}
       Worker.RATE_LIMIT_WINDOW).
Proof.
  unfold Worker.checkRateLimit. intros -> H Hc.
  destruct (Z.ltb_spec (Worker.windowStart d)
              (now - Worker.RATE_LIMIT_WINDOW * 1000)); [lia|].
  by destruct (Z.leb_spec Worker.RATE_LIMIT_MAX (Worker.count d)); [lia|].
Qed.

Lemma opens_window_check :
  opens_window m ip now →
  Worker.checkRateLimit now m ip
  = (verdict true (Worker.RATE_LIMIT_MAX - 1) None,
     Worker.kv_put now m ip (new_window now) Worker.RATE_LIMIT_WINDOW).
Proof.
  intros [H|(d & H & Hd)];
    [by apply checkRateLimit_first|by eapply checkRateLimit_elapsed].
Qed.

End rate_limiter.

(** An entry just written is read back until its TTL runs out. *)
Lemma kv_get_put {A} (now t : Z) (m : gmap jsstring (Worker.Stored A))
    (k : jsstring) (v : A) (ttl : Z) :
  t < now + ttl * 1000 →
  Worker.kv_get t (Worker.kv_put now m k v ttl) k = Some v.
Proof.
  intros H. unfold Worker.kv_get, Worker.kv_put.
  rewrite lookup_insert_eq. simpl.
  by destruct (Z.ltb_spec t (now + ttl * 1000)); [|lia].
Qed.

Section window.
Context (ip : jsstring) (t0 : Z).

Lemma window_open_get (m : window_map) (c t : Z) :
  window_open m ip t0 c → in_window t0 t →
  Worker.kv_get t m ip
  = Some {| Worker.count := c; Worker.windowStart := t0 |}.
Proof.
  intros (e & Hm & He) [H1 H2]. unfold Worker.kv_get. rewrite Hm. simpl.
  by destruct (Z.ltb_spec t e); [|lia].
Qed.

Lemma window_open_put (m : window_map) (c t : Z) :
  t0 ≤ t →
  window_open
    (Worker.kv_put t m ip {| Worker.count := c; Worker.windowStart := t0 |}
       Worker.RATE_LIMIT_WINDOW)
    ip t0 c.
Proof.
  intros H. eexists. unfold Worker.kv_put. rewrite lookup_insert_eq.
  split; [done|lia].
Qed.

Lemma serve_cons (t : Z) (ts : list Z) (m : window_map) :
  serve (t :: ts) m ip
  = (Worker.allowed (Worker.checkRateLimit t m ip).1
       :: (serve ts (Worker.checkRateLimit t m ip).2 ip).1,
     (serve ts (Worker.checkRateLimit t m ip).2 ip).2).
Proof.
  simpl. destruct (Worker.checkRateLimit t m ip) as [r m']. simpl.
  by destruct (serve ts m' ip).
Qed.

(** While the count has room, every request within the window is allowed
    and counted. *)
Lemma serve_room (ts : list Z) (m : window_map) (c : Z) :
  window_open m ip t0 c → Forall (in_window t0) ts →
  c + Z.of_nat (length ts) ≤ Worker.RATE_LIMIT_MAX →
  (serve ts m ip).1 = repeat true (length ts)
  ∧ window_open (serve ts m ip).2 ip t0 (c + Z.of_nat (length ts)).
Proof.
  revert m c. induction ts as [|t ts IH]; intros m c Hm Hts Hc.
  - simpl. by rewrite Z.add_0_r.
  - apply list.Forall_cons in Hts as [Ht Hts].
    cbn [length] in *. rewrite Nat2Z.inj_succ in *.
    rewrite serve_cons.
    rewrite (checkRateLimit_room m ip t _ (window_open_get _ _ _ Hm Ht));
      [|destruct Ht; simpl; lia|simpl; lia].
    cbn [fst snd Worker.allowed verdict Worker.count Worker.windowStart].
    destruct (IH (Worker.kv_put t m ip
                    {| Worker.count := c + 1; Worker.windowStart := t0 |}
                    Worker.RATE_LIMIT_WINDOW) (c + 1)) as [IH1 IH2];
      [apply window_open_put; by destruct Ht|done|lia|].
    rewrite IH1. split; [done|].
    by replace (c + Z.succ (Z.of_nat (length ts)))
         with (c + 1 + Z.of_nat (length ts)) by lia.
Qed.

(** The request that opens a window and the [max - 1] that follow it within
    the window are allowed; one more within the window is refused. *)
Lemma rate_limit_boundary (m : window_map) (ts : list Z) (t : Z) :
  opens_window m ip t0 →
  Z.of_nat (length ts) = Worker.RATE_LIMIT_MAX - 1 →
  Forall (in_window t0) ts → in_window t0 t →
  (serve (t0 :: ts) m ip).1 = repeat true (Z.to_nat Worker.RATE_LIMIT_MAX)
  ∧ Worker.checkRateLimit t (serve (t0 :: ts) m ip).2 ip
    = (verdict false 0 (Some Worker.RATE_LIMIT_WINDOW),
       (serve (t0 :: ts) m ip).2).
Proof.
  intros Ho Hlen Hts Ht. rewrite serve_cons, (opens_window_check _ _ _ Ho).
  cbn [fst snd Worker.allowed verdict].
  destruct (serve_room ts
              (Worker.kv_put t0 m ip (new_window t0)
                 Worker.RATE_LIMIT_WINDOW) 1) as [H1 H2];
    [apply window_open_put; lia|done|lia|].
  rewrite H1. split.
  - by replace (Z.to_nat Worker.RATE_LIMIT_MAX) with (S (length ts)) by lia.
  - rewrite Hlen in H2.
    apply (checkRateLimit_full _ ip t _ (window_open_get _ _ _ H2 Ht));
      cbn [Worker.count Worker.windowStart]; [destruct Ht|]; lia.
Qed.

End window.

(** C4, as stated, fails where the window ends: sixty requests of one
    client, the first at time 0, leave a window begun at 0; at time 60000 the
    age of the window equals its duration, yet no new window starts and the
    request is refused. *)
Lemma C4_window_not_reset_at_its_end :
  let m := (serve (0 :: repeat 30000 59) ∅ client).2 in
  Worker.kv_get 60000 m client
  = Some {| Worker.count := 60; Worker.windowStart := 0 |}
  ∧ 60000 - 0 >= Worker.RATE_LIMIT_WINDOW * 1000
  ∧ Worker.checkRateLimit 60000 m client
    = (verdict false 0 (Some Worker.RATE_LIMIT_WINDOW), m).
Proof. repeat split; vm_compute; congruence. Qed.

(** C4, amended: [checkRateLimit] is a fixed window that restarts, with
    count 1, when nothing is stored for the client or when the stored window
    began strictly more than a window ago; within the window a full count is
    refused with [retryAfter] the window and [remaining] 0, and a smaller
    one is incremented and allowed.  Hence the request that opens a window
    and the fifty-nine that follow it within the window are allowed, the
    sixty-first is answered 429, and a request that comes more than a window
    after the start is allowed again. *)
Theorem C4_fixed_window (m : window_map) (ip : jsstring) (now : Z) :
  (opens_window m ip now →
   Worker.checkRateLimit now m ip
   = (verdict true (Worker.RATE_LIMIT_MAX - 1) None,
      Worker.kv_put now m ip (new_window now) Worker.RATE_LIMIT_WINDOW))
  ∧ (∀ d, Worker.kv_get now m ip = Some d →
       now - Worker.windowStart d ≤ Worker.RATE_LIMIT_WINDOW * 1000 →
       (Worker.RATE_LIMIT_MAX ≤ Worker.count d →
        Worker.checkRateLimit now m ip
        = (verdict false 0 (Some Worker.RATE_LIMIT_WINDOW), m))
       ∧ (Worker.count d < Worker.RATE_LIMIT_MAX →
          Worker.checkRateLimit now m ip
          = (verdict true (Worker.RATE_LIMIT_MAX - Worker.count d - 1) None,
             Worker.kv_put now m ip
               {| Worker.count := Worker.count d + 1;
                  Worker.windowStart := Worker.windowStart d |}
               Worker.RATE_LIMIT_WINDOW)))
  ∧ (∀ (ts : list Z) (t : Z),
       opens_window m ip now →
       Z.of_nat (length ts) = Worker.RATE_LIMIT_MAX - 1 →
       Forall (in_window now) ts → in_window now t →
       (serve (now :: ts) m ip).1
       = repeat true (Z.to_nat Worker.RATE_LIMIT_MAX)
       ∧ ∀ pf env up clock kv raw,
           Worker.windows kv = (serve (now :: ts) m ip).2 →
           Worker.now_arrival clock = t →
           (Worker.fetch pf env up clock kv ip raw).1.1
           = TooManyRequests (js "Too many requests")
               (Some Worker.RATE_LIMIT_WINDOW))
  ∧ (∀ d, Worker.kv_get now m ip = Some d →
       now - Worker.windowStart d > Worker.RATE_LIMIT_WINDOW * 1000 →
       Worker.allowed (Worker.checkRateLimit now m ip).1 = true).
Proof.
  split; [apply opens_window_check|]. split; [|split].
  - intros d Hd Hin. split; intros Hc.
    + by apply (checkRateLimit_full m ip now d).
    + by apply (checkRateLimit_room m ip now d).
  - intros ts t Ho Hlen Hts Ht.
    destruct (rate_limit_boundary ip now m ts t Ho Hlen Hts Ht) as [H1 H2].
    split; [exact H1|]. intros pf env up clock kv raw Hkv Hclock.
    rewrite worker_fetch_rejected; unfold Worker.admits;
      rewrite Hkv, Hclock, H2; done.
  - intros d Hd Hold. by rewrite (checkRateLimit_elapsed m ip now d).
Qed.

Lemma C4_fixed_window_witness :
  (Worker.fetch sample_platform WorkerSample.env WorkerSample.up
     (WorkerSample.clock 59999)
     {| Worker.windows := (serve (0 :: repeat 30000 59) ∅ client).2;
        Worker.translations := ∅ |}
     client (Worker.Parsed hello)).1.1
  = TooManyRequests (js "Too many requests") (Some 60).
Proof.
  destruct (C4_fixed_window ∅ client 0) as (_ & _ & H & _).
  destruct (H (repeat 30000 59) 59999) as [_ H'].
  - left. reflexivity.
  - reflexivity.
  - apply Forall_forall. intros x Hx. apply repeat_spec in Hx. subst x.
    unfold in_window, Worker.RATE_LIMIT_WINDOW. lia.
  - unfold in_window, Worker.RATE_LIMIT_WINDOW. lia.
  - apply H'; reflexivity.
Defined.

(** ** Order of the rate limiter and the validator *)

(** C7, as stated, fails: a body without [text] does not pass the
    validator, but sent by a client that has used up its window it is
    answered by the rate limiter, with status 429. *)
Lemma C7_invalid_request_is_answered_429 :
  let body := {| text := JUndefined; sourceLang := JUndefined;
                 targetLang := lang "vi"; provider := lang "gemini" |} in
  Worker.valid body = false
  ∧ status
      (Worker.fetch sample_platform WorkerSample.env WorkerSample.up
         (WorkerSample.clock 2000) WorkerSample.busy_kv client
         (Worker.Parsed body)).1.1 = 429.
Proof. split; vm_compute; reflexivity. Qed.

(** C7, amended: the rate limiter runs before the validator.  In the
    worker a request the limiter refuses is answered 429 whatever its body,
    and a request it admits whose body fails the validation is answered 400;
    in the server the limiter is mounted on the route ahead of the handler,
    with the same two outcomes. *)
Theorem C7_rate_limiter_runs_first
    (pf : Platform) (env : Worker.Env) (up : Worker.Upstream)
    (clock : Worker.Clock) (kv : Worker.KV) (ip : jsstring)
    (cfg : Server.Config) (sup : Server.Upstream) (sclock : Server.Clock)
    (cache : cache_map) (body : Body) :
  (Worker.admits clock kv ip = false →
   ∀ raw, status (Worker.fetch pf env up clock kv ip raw).1.1 = 429)
  ∧ (Worker.admits clock kv ip = true →
     Worker.valid body = false →
     status (Worker.fetch pf env up clock kv ip (Worker.Parsed body)).1.1
     = 400)
  ∧ status (Server.translate_route true pf cfg sup sclock cache body).1.1
    = 429
  ∧ (Server.valid body = false →
     status (Server.translate_route false pf cfg sup sclock cache body).1.1
     = 400).
Proof.
  split; [|split; [|split]].
  - intros H raw. by rewrite worker_fetch_rejected.
  - apply worker_fetch_invalid.
  - done.
  - unfold Server.translate_route, Server.post_translate, Server.valid.
    destruct (text_invalid _); [done|].
    destruct (Server.targetLang_invalid _); [done|].
    destruct (provider_invalid _); done.
Qed.

Lemma C7_rate_limiter_runs_first_witness :
  let body := {| text := JUndefined; sourceLang := JUndefined;
                 targetLang := lang "vi"; provider := lang "gemini" |} in
  status
    (Worker.fetch sample_platform WorkerSample.env WorkerSample.up
       (WorkerSample.clock 2000) WorkerSample.busy_kv client
       (Worker.Parsed body)).1.1 = 429
  ∧ status
      (Worker.fetch sample_platform WorkerSample.env WorkerSample.up
         (WorkerSample.clock 2000) WorkerSample.empty_kv client
         (Worker.Parsed body)).1.1 = 400.
Proof.
  intros body. split.
  - destruct (C7_rate_limiter_runs_first sample_platform WorkerSample.env
                WorkerSample.up (WorkerSample.clock 2000)
                WorkerSample.busy_kv client ServerSample.cfg ServerSample.up
                (ServerSample.clock 0) ∅ body) as (H & _).
    apply H. vm_compute. reflexivity.
  - destruct (C7_rate_limiter_runs_first sample_platform WorkerSample.env
                WorkerSample.up (WorkerSample.clock 2000)
                WorkerSample.empty_kv client ServerSample.cfg ServerSample.up
                (ServerSample.clock 0) ∅ body) as (_ & H & _).
    apply H; vm_compute; reflexivity.
Defined.

(** ** Language detection *)

Section server_detection.
Context (pf : Platform) (cfg : Server.Config) (up : Server.Upstream)
  (clock : Server.Clock) (cache : cache_map) (body : Body).

(** Whatever the detector does, [detectLanguage] returns two lower-case
    letters. *)
Lemma server_detectLanguage_two_letters (t : jsstring) :
  test_two_lower (Server.detectLanguage pf cfg up t) = true.
Proof.
  unfold Server.detectLanguage, detected_or_en.
  destruct (Server.detect_reply _ _ _) as [r|?]; [|done].
  by destruct (test_two_lower (toLowerCase pf (trim r))) eqn:H.
Qed.

Lemma server_detectLanguage_en (t : jsstring) :
  server_detection_failed pf cfg up t →
  Server.detectLanguage pf cfg up t = js "en".
Proof.
  unfold server_detection_failed, Server.detectLanguage, detected_or_en.
  destruct (Server.detect_reply _ _ _); [by intros ->|done].
Qed.

(** In the server a failed detection is absorbed: the request is served
    as if it had named English as its source, the call of the detector
    being the only difference. *)
Lemma server_detection_absorbed :
  sourceLang_or_auto body = JString (js "auto") →
  Server.valid body = true →
  server_detection_failed pf cfg up
    (Server.normalizeText (string_of (text body))) →
  Server.post_translate pf cfg up clock cache body
  = let r := Server.post_translate pf cfg up clock cache
               (with_source body (JString (js "en"))) in
    (r.1.1, r.1.2,
     EvDetect (Server.normalizeText (string_of (text body))) :: r.2).
Proof.
  intros Hauto (H1 & H2 & H3)%server_valid_inv Hfail.
  unfold Server.post_translate. cbn [text targetLang provider with_source].
  rewrite H1, H2, H3, Hauto. unfold Server.resolve_source.
  rewrite (server_detectLanguage_en _ Hfail).
  change (sourceLang_or_auto (with_source body (JString (js "en"))))
    with (JString (js "en")).
  change (strict_eq (JString (js "auto")) (JString (js "auto"))) with true.
  change (strict_eq (JString (js "en")) (JString (js "auto"))) with false.
  cbv iota.
  destruct (strict_eq (JString (js "en")) (targetLang body)); [done|].
  destruct (Server.cache_get _ _ _ _); [done|].
  destruct (Server.translateText _ _ _ _ _); done.
Qed.

End server_detection.

Section worker_detection.
Context (pf : Platform) (env : Worker.Env) (up : Worker.Upstream)
  (clock : Worker.Clock) (kv : Worker.KV) (ip : jsstring) (body : Body).

(** An answer of the detector that is not a language code is replaced by
    English in the worker too. *)
Lemma worker_detectLanguage_en (t r : jsstring) :
  Worker.detect_reply up (Worker.GOOGLE_API_KEY env) (take 500 t)
  = Worker.Answer r →
  test_two_lower (toLowerCase pf (trim r)) = false →
  Worker.detectLanguage pf env up t = inl (js "en").
Proof.
  unfold Worker.detectLanguage, detected_or_en. by intros -> ->.
Qed.

(** But a call of the detector that fails ends the request, with status
    502. *)
Lemma worker_detection_failure_surfaces (message : jsstring) :
  Worker.admits clock kv ip = true →
  Worker.valid body = true →
  sourceLang_or_auto body = JString (js "auto") →
  Worker.detectLanguage pf env up
    (Worker.normalizeText (string_of (text body))) = inr message →
  (Worker.fetch pf env up clock kv ip (Worker.Parsed body)).1.1
  = Worker.service_error message.
Proof.
  intros Ha Hv Hauto Hfail. rewrite worker_fetch_allowed by done.
  unfold Worker.translate_valid, Worker.resolve_source.
  by rewrite Hauto, Hfail.
Qed.

End worker_detection.

(** C2 at the failing input: the body asks for detection and the detector
    answers with a non-success response.  The worker answers 502 with the
    detector's failure as its message; the server, whose detector throws,
    goes on with ["en"] and answers 200. *)
Theorem C2_worker_surfaces_detection_failure :
  let body := request "Bonjour le monde" (lang "auto") (lang "vi") "gemini" in
  (Worker.fetch sample_platform WorkerSample.env
     WorkerSample.up_detector_down (WorkerSample.clock 0)
     WorkerSample.empty_kv client (Worker.Parsed body)).1.1
  = Failure 502 (js "Translation service error")
      (Some (js "Language detection failed: Service Unavailable"))
  ∧ (Server.post_translate sample_platform ServerSample.cfg
       {| Server.detect_reply := λ _ _, Server.Throws (js "503");
          Server.translate_reply := Server.translate_reply ServerSample.up |}
       (ServerSample.clock 0) ∅ body).1.1
    = Success (js "Xin chao the gioi") false (lang "en").
Proof. split; vm_compute; reflexivity. Qed.

(** ** The short circuit *)

Lemma server_resolve_quiet (pf : Platform) (cfg : Server.Config)
    (up : Server.Upstream) (s : jsval) (t : jsstring) :
  quiet (Server.resolve_source pf cfg up s t).2 = true.
Proof. unfold Server.resolve_source. by destruct (strict_eq s _). Qed.

Lemma worker_resolve_quiet (pf : Platform) (env : Worker.Env)
    (up : Worker.Upstream) (s : jsval) (t : jsstring) :
  quiet (Worker.resolve_source pf env up s t).2 = true.
Proof. unfold Worker.resolve_source. by destruct (strict_eq s _). Qed.

Lemma server_short_circuit (pf : Platform) (cfg : Server.Config)
    (up : Server.Upstream) (clock : Server.Clock) (cache : cache_map)
    (body : Body) (src : jsval) :
  Server.valid body = true →
  (Server.resolve_source pf cfg up (sourceLang_or_auto body)
     (Server.normalizeText (string_of (text body)))).1 = src →
  strict_eq src (targetLang body) = true →
  ∃ ev,
    Server.post_translate pf cfg up clock cache body
    = (Success (Server.normalizeText (string_of (text body))) false src,
       cache, ev)
    ∧ quiet ev = true.
Proof.
  intros (H1 & H2 & H3)%server_valid_inv Hsrc Heq.
  unfold Server.post_translate. rewrite H1, H2, H3.
  pose proof (server_resolve_quiet pf cfg up (sourceLang_or_auto body)
                (Server.normalizeText (string_of (text body)))) as Hq.
  destruct (Server.resolve_source _ _ _ _ _) as [d ev]. simpl in *. subst d.
  rewrite Heq. eauto.
Qed.

Lemma worker_short_circuit (pf : Platform) (env : Worker.Env)
    (up : Worker.Upstream) (clock : Worker.Clock) (kv : Worker.KV)
    (ip : jsstring) (body : Body) (src : jsval) :
  Worker.admits clock kv ip = true →
  Worker.valid body = true →
  (Worker.resolve_source pf env up (sourceLang_or_auto body)
     (Worker.normalizeText (string_of (text body)))).1 = inl src →
  strict_eq src (targetLang body) = true →
  ∃ kv' ev,
    Worker.fetch pf env up clock kv ip (Worker.Parsed body)
    = (Success (Worker.normalizeText (string_of (text body))) false src,
       kv', ev)
    ∧ Worker.translations kv' = Worker.translations kv
    ∧ quiet ev = true.
Proof.
  intros Ha Hv Hsrc Heq. rewrite worker_fetch_allowed by done.
  unfold Worker.translate_valid.
  pose proof (worker_resolve_quiet pf env up (sourceLang_or_auto body)
                (Worker.normalizeText (string_of (text body)))) as Hq.
  destruct (Worker.resolve_source _ _ _ _ _) as [d ev]. simpl in *. subst d.
  rewrite Heq. simpl. eauto.
Qed.

(** C5: a request that passes the validation and whose source language,
    given or detected, is identical to its target language is answered with
    the normalized text as translation and [cached] false; the cache is left
    as it was, and the trace of the request holds no cache lookup, no cache
    store and no call of the translation service.  So it is in the server
    and, once the rate limiter has admitted the request, in the worker. *)
Theorem C5_short_circuit
    (pf : Platform) (cfg : Server.Config) (sup : Server.Upstream)
    (sclock : Server.Clock) (cache : cache_map)
    (env : Worker.Env) (up : Worker.Upstream) (clock : Worker.Clock)
    (kv : Worker.KV) (ip : jsstring) (body : Body) (src : jsval) :
  (Server.valid body = true →
   (Server.resolve_source pf cfg sup (sourceLang_or_auto body)
      (Server.normalizeText (string_of (text body)))).1 = src →
   strict_eq src (targetLang body) = true →
   ∃ ev,
     Server.post_translate pf cfg sup sclock cache body
     = (Success (Server.normalizeText (string_of (text body))) false src,
        cache, ev)
     ∧ quiet ev = true)
  ∧ (Worker.admits clock kv ip = true →
     Worker.valid body = true →
     (Worker.resolve_source pf env up (sourceLang_or_auto body)
        (Worker.normalizeText (string_of (text body)))).1 = inl src →
     strict_eq src (targetLang body) = true →
     ∃ kv' ev,
       Worker.fetch pf env up clock kv ip (Worker.Parsed body)
       = (Success (Worker.normalizeText (string_of (text body))) false src,
          kv', ev)
       ∧ Worker.translations kv' = Worker.translations kv
       ∧ quiet ev = true).
Proof.
  split; [apply server_short_circuit|apply worker_short_circuit].
Qed.

Lemma C5_short_circuit_witness :
  let given := request "  This text   should be returned as-is "
                 (lang "en") (lang "en") "gemini" in
  let detected := request "  This text   should be returned as-is "
                    JUndefined (lang "en") "gemini" in
  (∃ ev,
     Server.post_translate sample_platform ServerSample.cfg ServerSample.up
       (ServerSample.clock 0) ∅ given
     = (Success (js "This text should be returned as-is") false (lang "en"),
        ∅, ev)
     ∧ quiet ev = true)
  ∧ (∃ kv' ev,
       Worker.fetch sample_platform WorkerSample.env WorkerSample.up
         (WorkerSample.clock 0) WorkerSample.empty_kv client
         (Worker.Parsed detected)
       = (Success (js "This text should be returned as-is") false
            (lang "en"), kv', ev)
       ∧ Worker.translations kv' = Worker.translations WorkerSample.empty_kv
       ∧ quiet ev = true).
Proof.
  intros given detected. split.
  - destruct (C5_short_circuit sample_platform ServerSample.cfg
                ServerSample.up (ServerSample.clock 0) ∅ WorkerSample.env
                WorkerSample.up (WorkerSample.clock 0) WorkerSample.empty_kv
                client given (lang "en")) as (H & _).
    apply H; vm_compute; reflexivity.
  - destruct (C5_short_circuit sample_platform ServerSample.cfg
                ServerSample.up (ServerSample.clock 0) ∅ WorkerSample.env
                WorkerSample.up (WorkerSample.clock 0) WorkerSample.empty_kv
                client detected (lang "en")) as (_ & H).
    apply H; vm_compute; reflexivity.
Defined.

(** ** The cache of the server *)

Section server_cache.
Context (cfg : Server.Config) (now : Z) (cache : cache_map) (key : jsstring).

Lemma server_cache_get_Some (e : Server.CacheEntry) :
  Server.cache_get cfg now cache key = Some e
  ↔ cache !! key = Some e
    ∧ now - Server.timestamp e < Server.CACHE_TTL_MS cfg.
Proof.
  unfold Server.cache_get. destruct (cache !! key) as [c|].
  - destruct (Z.ltb_spec (now - Server.timestamp c)
                (Server.CACHE_TTL_MS cfg)); split.
    + by intros [= <-].
    + by intros [[= <-] _].
    + done.
    + intros [[= <-] ?]. lia.
  - split; [done|]. by intros [? _].
Qed.

Lemma server_cache_get_None :
  Server.cache_get cfg now cache key = None
  ↔ cache !! key = None
    ∨ ∃ e, cache !! key = Some e
           ∧ Server.CACHE_TTL_MS cfg ≤ now - Server.timestamp e.
Proof.
  unfold Server.cache_get. destruct (cache !! key) as [c|].
  - destruct (Z.ltb_spec (now - Server.timestamp c)
                (Server.CACHE_TTL_MS cfg)); split.
    + done.
    + intros [?|(e & [= <-] & ?)]; [done|lia].
    + intros _. right. by exists c.
    + done.
  - split; [by left|done].
Qed.

(** The hourly sweep removes only entries that a lookup made after it
    would treat as absent. *)
Lemma server_cleanup_cache_get (t0 : Z) :
  t0 ≤ now →
  Server.cache_get cfg now (Server.cleanupCache cfg t0 cache) key
  = Server.cache_get cfg now cache key.
Proof.
  intros Ht. unfold Server.cache_get, Server.cleanupCache.
  destruct (cache !! key) as [c|] eqn:Hc.
  - destruct (decide (t0 - Server.timestamp c > Server.CACHE_TTL_MS cfg))
      as [Hold|Hnew].
    + rewrite (map_lookup_filter_None_2 _ cache key).
      * by destruct (Z.ltb_spec (now - Server.timestamp c)
                       (Server.CACHE_TTL_MS cfg)); [lia|].
      * right. intros x Hx. simpl. rewrite Hc in Hx. injection Hx as <-.
        intros H. by apply H.
    + by rewrite (map_lookup_filter_Some_2 _ cache key c Hc).
  - rewrite (map_lookup_filter_None_2 _ cache key); [done|]. by left.
Qed.

End server_cache.

(** The handler answers [cached] true only from an entry younger than the
    TTL, and leaves the cache as it was. *)
Lemma server_cached_response (pf : Platform) (cfg : Server.Config)
    (up : Server.Upstream) (clock : Server.Clock) (cache cache' : cache_map)
    (body : Body) (t : jsstring) (d : jsval) (ev : list Event) :
  Server.post_translate pf cfg up clock cache body
  = (Success t true d, cache', ev) →
  ∃ key e, cache !! key = Some e
    ∧ Server.now_lookup clock - Server.timestamp e < Server.CACHE_TTL_MS cfg
    ∧ t = Server.translation e ∧ cache' = cache.
Proof.
  unfold Server.post_translate.
  repeat (case_match; try done); intros [= <- <- <- <-].
  all: match goal with
       | H : Server.cache_get _ _ _ _ = Some _ |- _ =>
           apply server_cache_get_Some in H as [? ?]
       end; eauto 10.
Qed.

(** C8: the lookup of the server misses exactly when the key is absent or
    the entry is at least as old as the TTL, and hits exactly on a present
    entry younger than the TTL; the TTL is 72 hours when none is configured;
    and the handler answers [cached] true only from such a hit. *)
Theorem C8_cache_get_misses_absent_or_expired
    (cfg : Server.Config) (now : Z) (cache : cache_map) (key : jsstring) :
  (Server.cache_get cfg now cache key = None
   ↔ cache !! key = None
     ∨ ∃ e, cache !! key = Some e
            ∧ Server.CACHE_TTL_MS cfg ≤ now - Server.timestamp e)
  ∧ (∀ e, Server.cache_get cfg now cache key = Some e
          ↔ cache !! key = Some e
            ∧ now - Server.timestamp e < Server.CACHE_TTL_MS cfg)
  ∧ (Server.CACHE_TTL_HOURS cfg = None →
     Server.CACHE_TTL_MS cfg = 72 * 60 * 60 * 1000)
  ∧ (∀ pf up clock body t d cache' ev,
       Server.now_lookup clock = now →
       Server.post_translate pf cfg up clock cache body
       = (Success t true d, cache', ev) →
       ∃ key' e, Server.cache_get cfg now cache key' = Some e
                 ∧ t = Server.translation e).
Proof.
  split; [|split; [|split]].
  - apply server_cache_get_None.
  - intros e. apply server_cache_get_Some.
  - unfold Server.CACHE_TTL_MS. by intros ->.
  - intros pf up clock body t d cache' ev <- H.
    apply server_cached_response in H as (key' & e & H1 & H2 & -> & _).
    exists key', e. split; [|done]. by apply server_cache_get_Some.
Qed.

Lemma C8_cache_get_misses_absent_or_expired_witness :
  let entry := {| Server.translation := js "Xin chao";
                  Server.timestamp := 1000 |} in
  let cache : cache_map := {[ js "k" := entry ]} in
  Server.cache_get ServerSample.cfg (1000 + 259199999) cache (js "k")
  = Some entry
  ∧ Server.cache_get ServerSample.cfg (1000 + 259200000) cache (js "k")
    = None
  ∧ Server.CACHE_TTL_MS ServerSample.cfg = 259200000.
Proof.
  intros entry cache. split; [|split].
  - apply (C8_cache_get_misses_absent_or_expired ServerSample.cfg
             (1000 + 259199999) cache (js "k")).
    split; [reflexivity|vm_compute; reflexivity].
  - apply (C8_cache_get_misses_absent_or_expired ServerSample.cfg
             (1000 + 259200000) cache (js "k")).
    right. exists entry. split; [reflexivity|vm_compute; discriminate].
  - apply (C8_cache_get_misses_absent_or_expired ServerSample.cfg 0 cache
             (js "k")).
    reflexivity.
Defined.

(** ** The round trip through the cache *)

(** In the server a request answered from the translation service leaves
    an entry from which the same request, resolved to the same source
    language before the entry is as old as the TTL, is answered with the
    same translation, [cached] true and no call of the service. *)
Lemma server_round_trip (pf : Platform) (cfg : Server.Config)
    (up1 up2 : Server.Upstream) (clock1 clock2 : Server.Clock)
    (cache cache1 : cache_map) (body : Body) (t : jsstring) (d : jsval)
    (ev1 : list Event) :
  Server.post_translate pf cfg up1 clock1 cache body
  = (Success t false d, cache1, ev1) →
  strict_eq d (targetLang body) = false →
  (Server.resolve_source pf cfg up2 (sourceLang_or_auto body)
     (Server.normalizeText (string_of (text body)))).1 = d →
  Server.now_lookup clock2 - Server.now_store clock1
  < Server.CACHE_TTL_MS cfg →
  ∃ ev2,
    Server.post_translate pf cfg up2 clock2 cache1 body
    = (Success t true d, cache1, ev2)
    ∧ no_translate ev2 = true.
Proof.
  unfold Server.post_translate.
  destruct (text_invalid _); [done|].
  destruct (Server.targetLang_invalid _); [done|].
  destruct (provider_invalid _); [done|].
  destruct (Server.resolve_source pf cfg up1 _ _) as [d1 e1].
  destruct (strict_eq d1 (targetLang body)) eqn:Hsc.
  { intros [= <- <- <- <-] Hne. congruence. }
  destruct (Server.cache_get cfg (Server.now_lookup clock1) cache _);
    [done|].
  destruct (Server.translateText _ _ _ _ _) as [t1|m1]; [|done].
  intros [= <- <- <- <-] _ Hd Hfresh.
  destruct (Server.resolve_source pf cfg up2 _ _) as [d2 e2] eqn:Hr2.
  simpl in Hd. subst d2. rewrite Hsc.
  unfold Server.cache_get at 1. rewrite lookup_insert_eq. simpl.
  destruct (Z.ltb_spec (Server.now_lookup clock2 - Server.now_store clock1)
              (Server.CACHE_TTL_MS cfg)); [|lia].
  eexists. split; [done|].
  unfold Server.resolve_source in Hr2.
  destruct (strict_eq (sourceLang_or_auto body) _); injection Hr2 as _ <-;
    done.
Qed.

(** The worker does so when the translation is not empty, the repeated
    request is admitted by the rate limiter and the entry has not
    expired. *)
Lemma worker_round_trip (pf : Platform) (env : Worker.Env)
    (up1 up2 : Worker.Upstream) (clock1 clock2 : Worker.Clock)
    (kv kv1 : Worker.KV) (ip : jsstring) (body : Body) (t : jsstring)
    (d : jsval) (ev1 : list Event) :
  Worker.fetch pf env up1 clock1 kv ip (Worker.Parsed body)
  = (Success t false d, kv1, ev1) →
  strict_eq d (targetLang body) = false →
  t ≠ [] →
  Worker.admits clock2 kv1 ip = true →
  (Worker.resolve_source pf env up2 (sourceLang_or_auto body)
     (Worker.normalizeText (string_of (text body)))).1 = inl d →
  Worker.now_lookup clock2
  < Worker.now_store clock1 + Worker.CACHE_TTL * 1000 →
  ∃ kv2 ev2,
    Worker.fetch pf env up2 clock2 kv1 ip (Worker.Parsed body)
    = (Success t true d, kv2, ev2)
    ∧ no_translate ev2 = true.
Proof.
  intros H1 Hne Ht Ha2 Hd Hfresh.
  assert (Hv : Worker.valid body = true).
  { unfold Worker.fetch in H1.
    destruct (Worker.checkRateLimit _ _ _) as [rl w].
    destruct (negb (Worker.allowed rl)); [done|]. unfold Worker.valid.
    destruct (text_invalid _); [done|].
    destruct (Worker.targetLang_invalid _); [done|].
    destruct (provider_invalid _); done. }
  assert (Ha1 : Worker.admits clock1 kv ip = true).
  { unfold Worker.fetch, Worker.admits in *.
    destruct (Worker.checkRateLimit _ _ _) as [rl w]. simpl.
    by destruct (Worker.allowed rl). }
  rewrite worker_fetch_allowed in H1 by done.
  rewrite worker_fetch_allowed by done.
  cbv zeta in *. unfold Worker.translate_valid in *.
  destruct (Worker.resolve_source pf env up1 _ _) as [[d1|m1] e1]; [|done].
  destruct (strict_eq d1 (targetLang body)) eqn:Hsc.
  { simpl in H1. injection H1 as <- <- <- <-. congruence. }
  destruct (Worker.cache_hit _); [done|].
  destruct (Worker.api_key_missing env); [done|].
  destruct (Worker.translateText env up1 _ _ _) as [t1|m1]; [|done].
  simpl in H1. injection H1 as <- <- <- <-.
  destruct (Worker.resolve_source pf env up2 _ _) as [d2 e2] eqn:Hr2.
  simpl in Hd. subst d2. rewrite Hsc.
  cbn [Worker.translations Worker.counted].
  rewrite kv_get_put by done.
  unfold Worker.cache_hit. cbn [Worker.translation].
  destruct t1 as [|c t1]; [done|]. cbn [length Nat.eqb].
  do 2 eexists. split; [done|].
  unfold Worker.resolve_source in Hr2.
  destruct (strict_eq (sourceLang_or_auto body) _); injection Hr2 as _ <-;
    done.
Qed.

(** C9 at the failing input: the translation service answers with blanks,
    which the worker trims to the empty string and stores.  The repeated
    request finds the entry, but the worker takes an entry with an empty
    translation for a miss: it calls the service again and answers [cached]
    false a second time.  The server answers the repeated request from its
    cache. *)
Theorem C9_worker_repeats_an_empty_translation :
  let first :=
    Worker.fetch sample_platform WorkerSample.env WorkerSample.up_blank
      (WorkerSample.clock 0) WorkerSample.empty_kv client
      (Worker.Parsed hello) in
  let second :=
    Worker.fetch sample_platform WorkerSample.env WorkerSample.up_blank
      (WorkerSample.clock 1000) first.1.2 client (Worker.Parsed hello) in
  let blank : Server.Upstream :=
    {| Server.detect_reply := λ _ _, Server.Answer (js "en");
       Server.translate_reply := λ _ _ _ _, Server.Answer (js "  ") |} in
  let first' :=
    Server.post_translate sample_platform ServerSample.cfg blank
      (ServerSample.clock 0) ∅ hello in
  let second' :=
    Server.post_translate sample_platform ServerSample.cfg blank
      (ServerSample.clock 1000) first'.1.2 hello in
  first.1.1 = Success [] false (lang "en")
  ∧ second.1.1 = Success [] false (lang "en")
  ∧ no_translate second.2 = false
  ∧ first'.1.1 = Success [] false (lang "en")
  ∧ second'.1.1 = Success [] true (lang "en").
Proof. repeat split; vm_compute; reflexivity. Qed.

(** ** The missing credential *)

(** In the worker a request that comes to the call of the translation
    service without a configured credential is answered with the
    configuration error, status 500, and the service is not called. *)
Lemma worker_missing_key (pf : Platform) (env : Worker.Env)
    (up : Worker.Upstream) (clock : Worker.Clock) (kv : Worker.KV)
    (ip : jsstring) (body : Body) (src : jsval) (ev : list Event) :
  let normalizedText := Worker.normalizeText (string_of (text body)) in
  let cacheKey :=
    generateCacheKey pf normalizedText src (targetLang body)
      (provider body) in
  Worker.admits clock kv ip = true →
  Worker.valid body = true →
  Worker.resolve_source pf env up (sourceLang_or_auto body) normalizedText
  = (inl src, ev) →
  strict_eq src (targetLang body) = false →
  Worker.cache_hit
    (Worker.kv_get (Worker.now_lookup clock) (Worker.translations kv)
       cacheKey) = None →
  Worker.api_key_missing env = true →
  Worker.fetch pf env up clock kv ip (Worker.Parsed body)
  = (Worker.configuration_error, Worker.counted clock kv ip,
     EvRateLimit ip :: ev ++ [EvCacheGet cacheKey]).
Proof.
  intros normalizedText cacheKey Ha Hv Hsrc Hne Hmiss Hkey.
  rewrite worker_fetch_allowed by done.
  unfold Worker.translate_valid. fold normalizedText.
  rewrite Hsrc, Hne. fold cacheKey. cbn [Worker.translations Worker.counted].
  by rewrite Hmiss, Hkey.
Qed.

(** C3 at the failing input: no credential is configured and the body is
    one that reaches the call of the translation service.  The server makes
    the call, which fails, and answers 401 with the message of the upstream
    error; the worker stops before the call with its configuration error,
    status 500. *)
Theorem C3_server_answers_401_without_credential :
  Server.post_translate sample_platform ServerSample.cfg_no_key
    ServerSample.up (ServerSample.clock 0) ∅ hello
  = (Failure 401 (js "Translation service error")
       (Some (js "Translation failed: API key not valid. "
              ++ js "Please pass a valid API key.")),
     ∅,
     [EvCacheGet (generateCacheKey sample_platform (js "Hello world")
                    (lang "en") (lang "vi") (lang "gemini"));
      EvTranslate (js "Hello world") (lang "en") (lang "vi")])
  ∧ (Worker.fetch sample_platform WorkerSample.env_no_key WorkerSample.up
       (WorkerSample.clock 0) WorkerSample.empty_kv client
       (Worker.Parsed hello)).1.1
    = Failure 500 (js "Server configuration error: API key not set") None
  ∧ no_translate
      (Worker.fetch sample_platform WorkerSample.env_no_key WorkerSample.up
         (WorkerSample.clock 0) WorkerSample.empty_kv client
         (Worker.Parsed hello)).2 = true.
Proof. repeat split; vm_compute; reflexivity. Qed.

(** * Further properties *)

(** ** Normalization keeps the words *)

Example words_ex :
  words (js "  to be " ++ [LF; 9%N] ++ js "or  not ")
  = [js "to"; js "be"; js "or"; js "not"].
Proof. reflexivity. Qed.

Lemma words_space (c : N) (t : jsstring) :
  is_space c = true → words (c :: t) = words t.
Proof. simpl. by intros ->. Qed.

Lemma words_cons_word (c : N) (t : jsstring) :
  is_space c = false → starts_clean t = true → t ≠ [] →
  ∃ w ws, words t = w :: ws ∧ words (c :: t) = (c :: w) :: ws.
Proof.
  intros Hc Ht Hne. destruct t as [|d u]; [done|].
  simpl in Ht. apply negb_true_iff in Ht.
  assert (∃ w ws, words (d :: u) = w :: ws) as (w & ws & Hw).
  { simpl. rewrite Ht. destruct u as [|e v]; [eauto|].
    destruct (is_space e); [eauto|]. destruct (words (e :: v)); eauto. }
  exists w, ws. split; [done|].
  cbn [words]. rewrite Hc, Ht. cbn [words] in Hw. rewrite Ht in Hw.
  by rewrite Hw.
Qed.

Lemma words_cons_sep (c : N) (t : jsstring) :
  is_space c = false → starts_clean t = false →
  words (c :: t) = [c] :: words t.
Proof.
  intros Hc Ht. destruct t as [|d u]; [done|].
  simpl in Ht. apply negb_false_iff in Ht. cbn [words]. by rewrite Hc, Ht.
Qed.

Lemma words_single (c : N) : is_space c = false → words [c] = [[c]].
Proof. simpl. by intros ->. Qed.

(** The words are not empty and hold no white space. *)
Lemma words_space_free (s : jsstring) :
  Forall (λ w, w ≠ [] ∧ space_free w = true) (words s).
Proof.
  induction s as [|c t IH]; [constructor|].
  destruct (is_space c) eqn:Hc; [by rewrite words_space|].
  destruct t as [|d u]; [rewrite words_single by done|].
  { repeat constructor; [done|]. simpl. by rewrite Hc. }
  destruct (starts_clean (d :: u)) eqn:Hs.
  - destruct (words_cons_word c (d :: u) Hc Hs) as (w & ws & Hw & ->); [done|].
    rewrite Hw in IH. apply list.Forall_cons in IH as [[_ Hsf] IH].
    apply list.Forall_cons. split; [|done]. split; [done|].
    simpl. by rewrite Hc.
  - rewrite words_cons_sep by done. apply list.Forall_cons. split; [|done].
    split; [done|]. simpl. by rewrite Hc.
Qed.

Lemma words_nil_trimEnd (s : jsstring) : words s = [] ↔ trimEnd s = [].
Proof.
  induction s as [|c t IH]; [done|].
  destruct (is_space c) eqn:Hc.
  - rewrite words_space by done. rewrite IH. simpl.
    destruct (trimEnd t); [by rewrite Hc|done].
  - split.
    + intros H. pose proof (words_space_free (c :: t)) as Hf.
      destruct t as [|d u]; [by rewrite words_single in H|].
      destruct (starts_clean (d :: u)) eqn:Hs.
      * by destruct (words_cons_word c (d :: u) Hc Hs) as (w & ws & _ & Hw);
          [|rewrite Hw in H].
      * by rewrite words_cons_sep in H.
    + simpl. destruct (trimEnd t); [by rewrite Hc|done].
Qed.

Lemma words_trimStart (s : jsstring) : words (trimStart s) = words s.
Proof.
  induction s as [|c t IH]; [done|]. simpl trimStart.
  destruct (is_space c) eqn:Hc; [by rewrite words_space|done].
Qed.

Lemma starts_clean_trimEnd (c : N) (t : jsstring) :
  trimEnd (c :: t) ≠ [] →
  starts_clean (trimEnd (c :: t)) = starts_clean (c :: t).
Proof. destruct (trimEnd_head c t) as [->|[r ->]]; done. Qed.

Lemma words_trimEnd (s : jsstring) : words (trimEnd s) = words s.
Proof.
  induction s as [|c t IH]; [done|].
  destruct (trimEnd t) as [|d r] eqn:Ht.
  - assert (words t = []) as Hw by by apply words_nil_trimEnd.
    simpl trimEnd. rewrite Ht.
    destruct (is_space c) eqn:Hc; [by rewrite words_space|].
    rewrite words_single by done.
    destruct t as [|e u]; [by rewrite words_single|].
    destruct (starts_clean (e :: u)) eqn:Hs.
    + by destruct (words_cons_word c (e :: u) Hc Hs) as (w & ws & Hw' & _);
        [|rewrite Hw in Hw'].
    + rewrite words_cons_sep by done. by rewrite Hw.
  - rewrite <- Ht in IH.
    assert (trimEnd (c :: t) = c :: trimEnd t) as -> by (simpl; by rewrite Ht).
    destruct (is_space c) eqn:Hc; [by rewrite !words_space|].
    destruct t as [|e u]; [done|].
    assert (Hsc : starts_clean (trimEnd (e :: u)) = starts_clean (e :: u))
      by (apply starts_clean_trimEnd; by rewrite Ht).
    destruct (starts_clean (e :: u)) eqn:Hs.
    + destruct (words_cons_word c (e :: u) Hc Hs) as (w & ws & Hw & ->);
        [done|].
      destruct (words_cons_word c (trimEnd (e :: u)) Hc Hsc)
        as (w' & ws' & Hw' & ->); [by rewrite Ht|].
      rewrite IH, Hw in Hw'. by injection Hw' as -> ->.
    + rewrite !words_cons_sep by done. by rewrite IH.
Qed.

Lemma words_trim (s : jsstring) : words (trim s) = words s.
Proof. unfold trim. by rewrite words_trimEnd, words_trimStart. Qed.

Lemma join_on_cons_head (sep c : N) (w : jsstring) (ws : list jsstring) :
  join_on sep ((c :: w) :: ws) = c :: join_on sep (w :: ws).
Proof. by destruct ws. Qed.

Lemma join_on_cons (sep : N) (w : jsstring) (ws : list jsstring) :
  ws ≠ [] → join_on sep (w :: ws) = w ++ sep :: join_on sep ws.
Proof. by destruct ws. Qed.

(** Collapsing a text that does not end in white space writes its words
    with one space between them, and one space in front when the text
    begins with white space and the scan is not already in a run. *)
Lemma squeeze_run_words (s : jsstring) :
  trimEnd s = s →
  squeeze_run true s = join_on SP (words s)
  ∧ squeeze_run false s
    = if starts_clean s then join_on SP (words s)
      else SP :: join_on SP (words s).
Proof.
  induction s as [|c t IH]; [done|]. intros H.
  apply trimEnd_cons_inv in H as [[-> Hc]|[Hne Ht]].
  - simpl. by rewrite Hc.
  - destruct (IH Ht) as [IH1 IH2]. clear IH.
    destruct (is_space c) eqn:Hc.
    + rewrite words_space by done. simpl. rewrite Hc. simpl.
      by rewrite IH1.
    + assert (Hgoal : c :: squeeze_run false t = join_on SP (words (c :: t))).
      { rewrite IH2. destruct (starts_clean t) eqn:Hs.
        - destruct (words_cons_word c t Hc Hs Hne) as (w & ws & Hw & ->).
          by rewrite Hw, join_on_cons_head.
        - rewrite words_cons_sep by done. rewrite join_on_cons; [done|].
          intros Hw. apply words_nil_trimEnd in Hw. congruence. }
      simpl squeeze_run. rewrite Hc. simpl starts_clean. rewrite Hc. done.
Qed.

Lemma squeeze_words (s : jsstring) : squeeze s = join_on SP (words s).
Proof.
  rewrite squeeze_spec.
  destruct (squeeze_run_words (trim s) (trim_trimEnd s)) as [_ H].
  by rewrite H, trim_starts_clean, words_trim.
Qed.

Lemma words_app_sep (a b : jsstring) (c : N) :
  is_space c = true → words (a ++ c :: b) = words a ++ words b.
Proof.
  intros Hc. induction a as [|x a IH]; [cbn [app]; by rewrite words_space|].
  destruct (is_space x) eqn:Hx.
  { change ((x :: a) ++ c :: b) with (x :: (a ++ c :: b)).
    by rewrite !words_space. }
  change ((x :: a) ++ c :: b) with (x :: (a ++ c :: b)).
  destruct a as [|d a].
  - cbn [app]. rewrite words_cons_sep by (simpl; by rewrite ?Hc).
    by rewrite words_space, words_single.
  - assert (Hs : starts_clean ((d :: a) ++ c :: b) = starts_clean (d :: a))
      by done.
    destruct (starts_clean (d :: a)) eqn:Hd.
    + destruct (words_cons_word x (d :: a) Hx Hd) as (w & ws & Hw & ->);
        [done|].
      destruct (words_cons_word x ((d :: a) ++ c :: b) Hx Hs)
        as (w' & ws' & Hw' & ->); [done|].
      rewrite IH, Hw in Hw'. simpl in Hw'. by injection Hw' as <- <-.
    + rewrite !words_cons_sep by done. by rewrite IH.
Qed.

Lemma words_word (w : jsstring) :
  w ≠ [] → space_free w = true → words w = [w].
Proof.
  induction w as [|c w IH]; [done|]. intros _ H. simpl in H.
  apply andb_true_iff in H as [Hc Hw]. apply negb_true_iff in Hc.
  destruct w as [|d u]; [by apply words_single|].
  assert (Hd : starts_clean (d :: u) = true)
    by (simpl in *; by apply andb_true_iff in Hw as [-> _]).
  destruct (words_cons_word c (d :: u) Hc Hd) as (w' & ws & Hw' & ->);
    [done|].
  rewrite IH in Hw' by done. by injection Hw' as <- <-.
Qed.

Lemma words_join_on_SP (ws : list jsstring) :
  Forall (λ w, w ≠ [] ∧ space_free w = true) ws →
  words (join_on SP ws) = ws.
Proof.
  induction 1 as [|w ws [Hne Hsf] Hws IH]; [done|].
  destruct ws as [|w' ws']; [by apply words_word|].
  rewrite join_on_cons by done.
  rewrite words_app_sep by done. by rewrite IH, words_word.
Qed.

Lemma words_squeeze (s : jsstring) : words (squeeze s) = words s.
Proof. rewrite squeeze_words. apply words_join_on_SP, words_space_free. Qed.

Lemma words_join_LF (ls : list jsstring) :
  words (join_LF ls) = concat (List.map words ls).
Proof.
  induction ls as [|l ls IH]; [done|].
  destruct ls as [|l' ls']; [simpl; by rewrite app_nil_r|].
  change (join_LF (l :: l' :: ls')) with (l ++ LF :: join_LF (l' :: ls')).
  rewrite words_app_sep by done. by rewrite IH.
Qed.

Lemma words_squeeze_lines (x : jsstring) : words (squeeze_lines x) = words x.
Proof.
  unfold squeeze_lines. rewrite words_join_LF, List.map_map.
  rewrite <- (join_split x) at 2. rewrite words_join_LF. f_equal.
  apply List.map_ext. intros l. apply words_squeeze.
Qed.

Lemma cap_LF_O_head (t : jsstring) :
  starts_clean (cap_LF O t) = starts_clean t ∧ (cap_LF O t = [] → t = []).
Proof.
  destruct t as [|c t]; [done|]. simpl.
  destruct (is_LF c) eqn:Hc; simpl; done.
Qed.

Lemma words_cap_LF (s : jsstring) (n : nat) : words (cap_LF n s) = words s.
Proof.
  revert n. induction s as [|c t IH]; intros n; [done|]. simpl cap_LF.
  destruct (is_LF c) eqn:Hc.
  - pose proof (is_LF_space c Hc) as Hs.
    destruct (n <? 2)%nat; rewrite ?words_space by done; by rewrite IH.
  - destruct (is_space c) eqn:Hs; [by rewrite !words_space, IH|].
    destruct (cap_LF_O_head t) as [Hh Hnil].
    destruct t as [|d u]; [done|].
    destruct (starts_clean (d :: u)) eqn:Hd.
    + destruct (words_cons_word c (d :: u) Hs Hd) as (w & ws & Hw & ->);
        [done|].
      destruct (words_cons_word c (cap_LF O (d :: u)) Hs Hh)
        as (w' & ws' & Hw' & ->); [by intros ?%Hnil|].
      rewrite IH, Hw in Hw'. by injection Hw' as <- <-.
    + rewrite !words_cons_sep by done. by rewrite IH.
Qed.

Lemma words_server_normalizeText (x : jsstring) :
  words (Server.normalizeText x) = words x.
Proof.
  by rewrite server_normalizeText_spec, words_cap_LF, words_squeeze_lines.
Qed.

(** X1: the worker's [normalizeText] writes the words of the text with single
    spaces between them. *)
Theorem worker_normalizeText_words (x : jsstring) :
  Worker.normalizeText x = join_on SP (words x).
Proof. apply squeeze_words. Qed.

(** X2: both [normalizeText] leave the words of the text as they are: none is
    changed, dropped, split, or merged with its neighbour. *)
Theorem normalizeText_keeps_words (x : jsstring) :
  words (Server.normalizeText x) = words x
  ∧ words (Worker.normalizeText x) = words x.
Proof. split; [apply words_server_normalizeText|apply words_squeeze]. Qed.

(** ** The two normal forms *)

Lemma cap_LF_LF_free (s : jsstring) (n : nat) :
  LF_free s = true → cap_LF n s = s.
Proof.
  revert n. induction s as [|c t IH]; intros n; [done|]. simpl.
  destruct (is_LF c); [done|]. intros H. by rewrite IH.
Qed.

Lemma server_normalizeText_tidy_line (l : jsstring) :
  tidy l = true → starts_clean l = true → Server.normalizeText l = l.
Proof.
  intros Ht Hs. rewrite server_normalizeText_spec. unfold squeeze_lines.
  rewrite split_LF_free by by apply tidy_LF_free. simpl.
  rewrite squeeze_fixed by done. by apply cap_LF_LF_free, tidy_LF_free.
Qed.

(** X3: what the worker returns the server leaves alone, and the worker makes
    no difference between a text and what the server returns for it. *)
Theorem normalizeText_compose (x : jsstring) :
  Server.normalizeText (Worker.normalizeText x) = Worker.normalizeText x
  ∧ Worker.normalizeText (Server.normalizeText x) = Worker.normalizeText x.
Proof.
  split.
  - destruct (squeeze_tidy x). by apply server_normalizeText_tidy_line.
  - unfold Worker.normalizeText.
    by rewrite !squeeze_words, words_server_normalizeText.
Qed.

Lemma cap_LF_runs (s : jsstring) (n : nat) :
  (n ≤ 2)%nat →
  (n + run is_LF (cap_LF n s) ≤ 2)%nat ∧ has_3LF (cap_LF n s) = false.
Proof.
  revert n. induction s as [|c t IH]; intros n Hn; [split; [simpl; lia|done]|].
  simpl cap_LF. destruct (is_LF c) eqn:Hc.
  - destruct (n <? 2)%nat eqn:Hn2; [|by apply IH].
    apply Nat.ltb_lt in Hn2. destruct (IH (S n)) as [H1 H2]; [lia|].
    rewrite (run_LF_cons _ _ Hc). split; [lia|].
    unfold has_3LF in *. cbn [includes]. rewrite H2, orb_false_r.
    rewrite startsWith_3LF_run, (run_LF_cons _ _ Hc).
    apply Nat.leb_gt. lia.
  - destruct (IH O) as [H1 H2]; [lia|].
    assert (Hr : run is_LF (c :: cap_LF O t) = O) by (simpl; by rewrite Hc).
    split; [lia|].
    unfold has_3LF in *. cbn [includes]. rewrite H2, orb_false_r.
    rewrite startsWith_3LF_run, Hr. done.
Qed.

(** X4: what the server returns is in normal form: no three line feeds in a
    row, and every line without white space at its ends and with single spaces
    only inside. *)
Theorem server_normalizeText_normal_form (x : jsstring) :
  has_3LF (Server.normalizeText x) = false
  ∧ Forall (λ l, tidy l = true ∧ starts_clean l = true)
      (split_LF (Server.normalizeText x)).
Proof.
  rewrite server_normalizeText_spec. split; [apply cap_LF_runs; lia|].
  apply cap_LF_lines; [done|].
  unfold squeeze_lines. rewrite split_join_squeeze by apply split_LF_nonempty.
  apply Forall_forall. intros l Hl. apply in_map_iff in Hl as (l0 & <- & _).
  apply squeeze_tidy.
Qed.

(** ** Normalization never lengthens a text *)

Lemma trimStart_length (s : jsstring) : (length (trimStart s) ≤ length s)%nat.
Proof.
  induction s as [|c t IH]; [done|]. simpl.
  destruct (is_space c); simpl; lia.
Qed.

Lemma trimEnd_length (s : jsstring) : (length (trimEnd s) ≤ length s)%nat.
Proof.
  induction s as [|c t IH]; [done|]. simpl.
  destruct (trimEnd t); [destruct (is_space c)|]; simpl in *; lia.
Qed.

Lemma squeeze_run_length (s : jsstring) (b : bool) :
  (length (squeeze_run b s) ≤ length s)%nat.
Proof.
  revert b. induction s as [|c t IH]; intros b; [done|]. simpl.
  pose proof (IH true). pose proof (IH false).
  destruct (is_space c); [destruct b|]; simpl; lia.
Qed.

Lemma squeeze_length (s : jsstring) : (length (squeeze s) ≤ length s)%nat.
Proof.
  rewrite squeeze_spec. unfold trim.
  pose proof (squeeze_run_length (trimEnd (trimStart s)) false).
  pose proof (trimEnd_length (trimStart s)).
  pose proof (trimStart_length s). lia.
Qed.

Lemma cap_LF_length (s : jsstring) (n : nat) :
  (length (cap_LF n s) ≤ length s)%nat.
Proof.
  revert n. induction s as [|c t IH]; intros n; [done|]. simpl.
  pose proof (IH n). pose proof (IH (S n)). pose proof (IH O).
  destruct (is_LF c); [destruct (n <? 2)%nat|]; simpl; lia.
Qed.

Lemma join_LF_squeeze_length (ls : list jsstring) :
  (length (join_LF (List.map squeeze ls)) ≤ length (join_LF ls))%nat.
Proof.
  induction ls as [|l ls IH]; [done|].
  pose proof (squeeze_length l).
  destruct ls as [|l' ls']; [done|].
  change (join_LF (List.map squeeze (l :: l' :: ls')))
    with (squeeze l ++ LF :: join_LF (List.map squeeze (l' :: ls'))).
  change (join_LF (l :: l' :: ls')) with (l ++ LF :: join_LF (l' :: ls')).
  rewrite !length_app. cbn [length]. lia.
Qed.

(** X5: neither [normalizeText] returns more code units than it is given. *)
Theorem normalizeText_length (x : jsstring) :
  (length (Server.normalizeText x) ≤ length x)%nat
  ∧ (length (Worker.normalizeText x) ≤ length x)%nat.
Proof.
  split; [|apply squeeze_length].
  rewrite server_normalizeText_spec.
  pose proof (cap_LF_length (squeeze_lines x) O).
  pose proof (join_LF_squeeze_length (split_LF x)) as H1.
  rewrite join_split in H1. unfold squeeze_lines in *. lia.
Qed.

(** ** The handler of the server *)




Section server_handler.
Context (pf : Platform) (cfg : Server.Config) (up : Server.Upstream)
  (clock : Server.Clock) (cache : cache_map) (body : Body).

Let out := Server.post_translate pf cfg up clock cache body.
Let normalizedText := Server.normalizeText (string_of (text body)).




(** X9: outside development the message of an error response never carries the
    words of the upstream error. *)
Theorem server_production_message (st : Z) (e : jsstring)
    (m : option jsstring) :
  Server.development cfg = false →
  out.1.1 = Failure st e m →
  m = None ∨ m = Some generic_message.
Proof.
  subst out. unfold Server.post_translate, Server.service_error.
  intros Hdev. rewrite Hdev.
  destruct (text_invalid _); [intros [= <- <- <-]; by left|].
  destruct (Server.targetLang_invalid _); [intros [= <- <- <-]; by left|].
  destruct (provider_invalid _); [intros [= <- <- <-]; by left|].
  destruct (Server.resolve_source _ _ _ _ _) as [d ev].
  destruct (strict_eq d (targetLang body)); [done|].
  destruct (Server.cache_get _ _ _ _); [done|].
  destruct (Server.translateText _ _ _ _ _); [done|].
  intros [= <- <- <-]. by right.
Qed.

End server_handler.


Lemma server_production_message_witness :
  Server.development cfg_production = false
  ∧ (Some generic_message = None
     ∨ Some generic_message = Some generic_message).
Proof.
  split; [reflexivity|].
  apply (server_production_message sample_platform cfg_production
           ServerSample.up (ServerSample.clock 0) ∅ hello 401
           (js "Translation service error") (Some generic_message));
    reflexivity.
Defined.

(** X10: the hourly sweep cannot be observed through the endpoint: a request
    served after a sweep gets the answer, and makes the calls, it would have
    got and made without it. *)
Theorem server_sweep_unobservable (pf : Platform) (cfg : Server.Config)
    (up : Server.Upstream) (clock : Server.Clock) (cache : cache_map)
    (body : Body) (t0 : Z) :
  t0 ≤ Server.now_lookup clock →
  let swept :=
    Server.post_translate pf cfg up clock (Server.cleanupCache cfg t0 cache)
      body in
  let kept := Server.post_translate pf cfg up clock cache body in
  swept.1.1 = kept.1.1 ∧ swept.2 = kept.2.
Proof.
  intros Ht. cbv zeta. unfold Server.post_translate.
  destruct (text_invalid _); [done|].
  destruct (Server.targetLang_invalid _); [done|].
  destruct (provider_invalid _); [done|].
  destruct (Server.resolve_source _ _ _ _ _) as [d ev].
  destruct (strict_eq d (targetLang body)); [done|].
  rewrite server_cleanup_cache_get by done.
  destruct (Server.cache_get _ _ _ _); [done|].
  by destruct (Server.translateText _ _ _ _ _).
Qed.

Lemma server_sweep_unobservable_witness :
  let cache :=
    (Server.post_translate sample_platform ServerSample.cfg ServerSample.up
       (ServerSample.clock 0) ∅ hello).1.2 in
  let swept :=
    Server.post_translate sample_platform ServerSample.cfg ServerSample.up
      (ServerSample.clock 5000)
      (Server.cleanupCache ServerSample.cfg 4000 cache) hello in
  let kept :=
    Server.post_translate sample_platform ServerSample.cfg ServerSample.up
      (ServerSample.clock 5000) cache hello in
  swept.1.1 = kept.1.1 ∧ swept.2 = kept.2.
Proof.
  apply (server_sweep_unobservable sample_platform ServerSample.cfg
           ServerSample.up (ServerSample.clock 5000)
           (Server.post_translate sample_platform ServerSample.cfg
              ServerSample.up (ServerSample.clock 0) ∅ hello).1.2
           hello 4000).
  simpl. lia.
Defined.

(** X11: an entry whose age is the time to live exactly is no longer served,
    and the sweep does not remove it yet. *)
Theorem server_cache_boundary (cfg : Server.Config) (now : Z)
    (cache : cache_map) (key : jsstring) (e : Server.CacheEntry) :
  cache !! key = Some e →
  now - Server.timestamp e = Server.CACHE_TTL_MS cfg →
  Server.cache_get cfg now cache key = None
  ∧ Server.cleanupCache cfg now cache !! key = Some e.
Proof.
  intros He Hage. split.
  - apply server_cache_get_None. right. exists e. split; [done|lia].
  - unfold Server.cleanupCache. apply map_lookup_filter_Some.
    split; [done|]. simpl. lia.
Qed.

Lemma server_cache_boundary_witness :
  let e := {| Server.translation := js "Xin chao";
              Server.timestamp := 1000 |} in
  let now := 1000 + Server.CACHE_TTL_MS ServerSample.cfg in
  Server.cache_get ServerSample.cfg now {[ js "k" := e ]} (js "k") = None
  ∧ Server.cleanupCache ServerSample.cfg now {[ js "k" := e ]} !! js "k"
    = Some e.
Proof.
  apply (server_cache_boundary ServerSample.cfg
           (1000 + Server.CACHE_TTL_MS ServerSample.cfg)
           {[ js "k" := {| Server.translation := js "Xin chao";
                           Server.timestamp := 1000 |} ]} (js "k")).
  - apply lookup_singleton_eq.
  - simpl. lia.
Defined.

(** ** The handler of the worker *)

Local Ltac status_elem := simpl; rewrite !elem_of_cons; by auto 8.
Local Ltac status_case := split; [status_elem|]; simpl; by split.

Section worker_handler.
Context (pf : Platform) (env : Worker.Env) (up : Worker.Upstream)
  (clock : Worker.Clock) (kv : Worker.KV) (ip : jsstring).

Lemma worker_translate_valid_windows (kv0 : Worker.KV) (body : Body) :
  Worker.windows (Worker.translate_valid pf env up clock kv0 body).1.2
  = Worker.windows kv0.
Proof.
  unfold Worker.translate_valid.
  destruct (Worker.resolve_source _ _ _ _ _) as [[d|m] ev]; [|done].
  destruct (strict_eq d (targetLang body)); [done|].
  destruct (Worker.cache_hit _); [done|].
  destruct (Worker.api_key_missing env); [done|].
  by destruct (Worker.translateText _ _ _ _ _).
Qed.

Lemma worker_fetch_windows (raw : Worker.RawBody) :
  Worker.windows (Worker.fetch pf env up clock kv ip raw).1.2
  = (Worker.checkRateLimit (Worker.now_arrival clock) (Worker.windows kv)
       ip).2.
Proof.
  unfold Worker.fetch.
  destruct (Worker.checkRateLimit _ _ _) as [rl w]. cbn [snd].
  destruct (negb (Worker.allowed rl)); [done|].
  destruct raw as [m|body]; [done|].
  destruct (text_invalid _); [done|].
  destruct (Worker.targetLang_invalid _); [done|].
  destruct (provider_invalid _); [done|].
  pose proof (worker_translate_valid_windows
                {| Worker.windows := w;
                   Worker.translations := Worker.translations kv |} body)
    as Hw.
  by destruct (Worker.translate_valid _ _ _ _ _ _) as [[r kv''] ev'].
Qed.

Lemma worker_fetch_status (raw : Worker.RawBody) :
  status (Worker.fetch pf env up clock kv ip raw).1.1
  ∈ [200; 400; 429; 500; 502].
Proof.
  unfold Worker.fetch.
  destruct (Worker.checkRateLimit _ _ _) as [rl w].
  destruct (negb (Worker.allowed rl)); [status_elem|].
  destruct raw as [m|body]; [status_elem|].
  destruct (text_invalid _); [status_elem|].
  destruct (Worker.targetLang_invalid _); [status_elem|].
  destruct (provider_invalid _); [status_elem|].
  unfold Worker.translate_valid.
  destruct (Worker.resolve_source _ _ _ _ _) as [[d|m] ev]; [|status_elem].
  destruct (strict_eq d (targetLang body)); [status_elem|].
  destruct (Worker.cache_hit _); [status_elem|].
  destruct (Worker.api_key_missing env); [status_elem|].
  destruct (Worker.translateText _ _ _ _ _); status_elem.
Qed.


(** X13: the statuses of the worker: 429 exactly when the rate limiter
    refuses, 500 only when no credential is configured, and never 401. *)
Theorem worker_status (raw : Worker.RawBody) :
  let out := Worker.fetch pf env up clock kv ip raw in
  status out.1.1 ∈ [200; 400; 429; 500; 502]
  ∧ (status out.1.1 = 429 ↔ Worker.admits clock kv ip = false)
  ∧ (status out.1.1 = 500 → Worker.api_key_missing env = true).
Proof.
  cbv zeta. unfold Worker.fetch, Worker.admits.
  destruct (Worker.checkRateLimit _ _ _) as [rl w]. cbn [fst].
  destruct (Worker.allowed rl); cbn [negb]; [|status_case].
  destruct raw as [m|body]; [status_case|].
  destruct (text_invalid _); [status_case|].
  destruct (Worker.targetLang_invalid _); [status_case|].
  destruct (provider_invalid _); [status_case|].
  unfold Worker.translate_valid.
  destruct (Worker.resolve_source _ _ _ _ _) as [[d|m] ev]; [|status_case].
  destruct (strict_eq d (targetLang body)); [status_case|].
  destruct (Worker.cache_hit _); [status_case|].
  destruct (Worker.api_key_missing env); [status_case|].
  destruct (Worker.translateText _ _ _ _ _); status_case.
Qed.

(** X14: the translation service is called at most once for a request, and
    only for a request the rate limiter admits, with a valid body, when a
    credential is configured. *)
Theorem worker_calls_upstream_once (raw : Worker.RawBody) :
  let out := Worker.fetch pf env up clock kv ip raw in
  (translate_calls out.2 ≤ 1)%nat
  ∧ (translate_calls out.2 = 1%nat →
     Worker.admits clock kv ip = true
     ∧ Worker.api_key_missing env = false
     ∧ ∃ body, raw = Worker.Parsed body ∧ Worker.valid body = true).
Proof.
  cbv zeta. unfold Worker.fetch, Worker.admits.
  destruct (Worker.checkRateLimit _ _ _) as [rl w]. cbn [fst].
  destruct (Worker.allowed rl); cbn [negb]; [|by split; [cbn; lia|]].
  destruct raw as [m|body]; [by split; [cbn; lia|]|].
  destruct (text_invalid _) eqn:H1; [by split; [cbn; lia|]|].
  destruct (Worker.targetLang_invalid _) eqn:H2; [by split; [cbn; lia|]|].
  destruct (provider_invalid _) eqn:H3; [by split; [cbn; lia|]|].
  assert (Hv : Worker.valid body = true).
  { unfold Worker.valid. by rewrite H1, H2, H3. }
  unfold Worker.translate_valid, Worker.resolve_source.
  destruct (strict_eq (sourceLang_or_auto body) _);
    [destruct (Worker.detectLanguage _ _ _ _)|];
    try (by split; [cbn; lia|]);
    (destruct (strict_eq _ (targetLang body)); [by split; [cbn; lia|]|]);
    (destruct (Worker.cache_hit _); [by split; [cbn; lia|]|]);
    (destruct (Worker.api_key_missing env); [by split; [cbn; lia|]|]);
    destruct (Worker.translateText _ _ _ _ _);
    cbn [fst snd app translate_calls List.filter is_translate length];
    (split; [lia|intros _; split; [done|split; [done|by exists body]]]).
Qed.


End worker_handler.


(** ** The rate limiter of the worker *)

Lemma checkRateLimit_other (now : Z) (m : window_map) (a b : jsstring) :
  a ≠ b → (Worker.checkRateLimit now m a).2 !! b = m !! b.
Proof.
  intros Hab. unfold Worker.checkRateLimit, Worker.kv_put.
  destruct (Worker.kv_get now m a) as [d|]; [|by apply lookup_insert_ne].
  destruct (_ <? _); [by apply lookup_insert_ne|].
  destruct (_ <=? _); [done|by apply lookup_insert_ne].
Qed.

Lemma checkRateLimit_other_verdict (now t : Z) (m : window_map)
    (a b : jsstring) :
  a ≠ b →
  (Worker.checkRateLimit t (Worker.checkRateLimit now m a).2 b).1
  = (Worker.checkRateLimit t m b).1.
Proof.
  intros Hab. unfold Worker.checkRateLimit at 1 3. unfold Worker.kv_get.
  rewrite (checkRateLimit_other now m a b Hab).
  destruct (m !! b) as [e|]; [|done].
  destruct (t <? Worker.expires e); [|done].
  destruct (_ <? _); [done|]. by destruct (_ <=? _).
Qed.

(** X16: clients do not share a budget: a request of one client, admitted or
    not, valid or not, changes neither the window stored for another client
    nor the verdict the other client gets next. *)
Theorem worker_clients_isolated (pf : Platform) (env : Worker.Env)
    (up : Worker.Upstream) (clock : Worker.Clock) (kv : Worker.KV)
    (ip other : jsstring) (raw : Worker.RawBody) (t : Z) :
  ip ≠ other →
  let kv' := (Worker.fetch pf env up clock kv ip raw).1.2 in
  Worker.windows kv' !! other = Worker.windows kv !! other
  ∧ (Worker.checkRateLimit t (Worker.windows kv') other).1
    = (Worker.checkRateLimit t (Worker.windows kv) other).1.
Proof.
  intros Hne. cbv zeta.
  rewrite worker_fetch_windows.
  split; [by apply checkRateLimit_other|
          by apply checkRateLimit_other_verdict].
Qed.

Lemma worker_clients_isolated_witness :
  let kv' :=
    (Worker.fetch sample_platform WorkerSample.env WorkerSample.up
       (WorkerSample.clock 2000) WorkerSample.busy_kv (js "198.51.100.2")
       (Worker.Parsed hello)).1.2 in
  Worker.windows kv' !! client = Worker.windows WorkerSample.busy_kv !! client
  ∧ (Worker.checkRateLimit 3000 (Worker.windows kv') client).1
    = (Worker.checkRateLimit 3000 (Worker.windows WorkerSample.busy_kv)
         client).1.
Proof.
  apply (worker_clients_isolated sample_platform WorkerSample.env
           WorkerSample.up (WorkerSample.clock 2000) WorkerSample.busy_kv
           (js "198.51.100.2") client (Worker.Parsed hello) 3000).
  discriminate.
Defined.

Lemma counts_bounded_put (now : Z) (m : window_map) (ip : jsstring)
    (d : Worker.RateData) (ttl : Z) :
  counts_bounded m → 1 ≤ Worker.count d ≤ Worker.RATE_LIMIT_MAX →
  counts_bounded (Worker.kv_put now m ip d ttl).
Proof.
  intros Hm Hd k e. unfold Worker.kv_put.
  destruct (decide (ip = k)) as [->|Hne].
  - rewrite lookup_insert_eq. by intros [= <-].
  - rewrite lookup_insert_ne by done. apply Hm.
Qed.

Lemma kv_get_lookup {A : Type} (now : Z)
    (m : gmap jsstring (Worker.Stored A)) (k : jsstring) (v : A) :
  Worker.kv_get now m k = Some v →
  ∃ e, m !! k = Some e ∧ Worker.value e = v.
Proof.
  unfold Worker.kv_get. destruct (m !! k) as [e|]; [|done].
  destruct (_ <? _); [|done]. intros [= <-]. by exists e.
Qed.

(** X17: the count stored for a client never exceeds the maximum, and the
    number of remaining requests reported is never negative: after an admitted
    request it is the maximum less the count just stored, after a refusal it
    is zero and nothing is stored. *)
Theorem checkRateLimit_remaining (now : Z) (m : window_map)
    (ip : jsstring) :
  counts_bounded m →
  let out := Worker.checkRateLimit now m ip in
  counts_bounded out.2
  ∧ 0 ≤ Worker.remaining out.1 < Worker.RATE_LIMIT_MAX
  ∧ (if Worker.allowed out.1
     then ∃ d, Worker.kv_get now out.2 ip = Some d
               ∧ Worker.remaining out.1
                 = Worker.RATE_LIMIT_MAX - Worker.count d
     else Worker.remaining out.1 = 0 ∧ out.2 = m).
Proof.
  intros Hm. cbv zeta. unfold Worker.checkRateLimit.
  assert (Hnew : counts_bounded
            (Worker.kv_put now m ip
               {| Worker.count := 1; Worker.windowStart := now |}
               Worker.RATE_LIMIT_WINDOW)).
  { by apply counts_bounded_put. }
  assert (Hget : ∀ d : Worker.RateData,
            Worker.kv_get now
              (Worker.kv_put now m ip d Worker.RATE_LIMIT_WINDOW) ip
            = Some d).
  { intros d. apply kv_get_put. unfold Worker.RATE_LIMIT_WINDOW. lia. }
  destruct (Worker.kv_get now m ip) as [d|] eqn:Hd; cbn [fst snd].
  - apply kv_get_lookup in Hd as (e & He & <-).
    pose proof (Hm ip e He) as Hc.
    destruct (_ <? _); cbn [fst snd Worker.allowed Worker.remaining].
    + split; [done|]. split; [done|]. eexists. by split; [apply Hget|].
    + destruct (Z.leb_spec Worker.RATE_LIMIT_MAX
                  (Worker.count (Worker.value e)));
        cbn [fst snd Worker.allowed Worker.remaining].
      * done.
      * split; [apply counts_bounded_put; [done|simpl; lia]|].
        split; [lia|]. eexists. split; [apply Hget|]. simpl. lia.
  - cbn [Worker.allowed Worker.remaining].
    split; [done|]. split; [done|]. eexists. by split; [apply Hget|].
Qed.

Lemma checkRateLimit_remaining_witness :
  let out := Worker.checkRateLimit 2000 ∅ client in
  counts_bounded out.2
  ∧ 0 ≤ Worker.remaining out.1 < Worker.RATE_LIMIT_MAX
  ∧ (if Worker.allowed out.1
     then ∃ d, Worker.kv_get 2000 out.2 client = Some d
               ∧ Worker.remaining out.1
                 = Worker.RATE_LIMIT_MAX - Worker.count d
     else Worker.remaining out.1 = 0 ∧ out.2 = ∅).
Proof.
  apply (checkRateLimit_remaining 2000 ∅ client).
  intros k e Hk. by rewrite lookup_empty in Hk.
Defined.

(** ** Lists in the configuration *)

Lemma split_on_nonempty (sep : N) (s : jsstring) : split_on sep s ≠ [].
Proof.
  induction s as [|c t IH]; [done|]. simpl.
  destruct (c =? sep)%N; [done|]. by destruct (split_on sep t).
Qed.

Lemma split_on_comma_free (l : jsstring) :
  comma_free l = true → split_on COMMA l = [l].
Proof.
  induction l as [|c t IH]; [done|]. simpl.
  destruct (c =? COMMA)%N; [done|]. intros H. by rewrite IH.
Qed.

Lemma split_on_app (l rest : jsstring) :
  comma_free l = true →
  split_on COMMA (l ++ COMMA :: rest) = l :: split_on COMMA rest.
Proof.
  induction l as [|c t IH]; [done|]. simpl.
  destruct (c =? COMMA)%N; [done|]. intros H. by rewrite IH.
Qed.

Lemma split_on_join (ls : list jsstring) :
  ls ≠ [] → Forall (λ l, comma_free l = true) ls →
  split_on COMMA (join_on COMMA ls) = ls.
Proof.
  induction ls as [|l ls IH]; [done|]. intros _ H.
  apply list.Forall_cons in H as [Hl Hls].
  destruct ls as [|l' ls]; [by apply split_on_comma_free|].
  change (join_on COMMA (l :: l' :: ls))
    with (l ++ COMMA :: join_on COMMA (l' :: ls)).
  rewrite split_on_app by done. by rewrite IH.
Qed.

Lemma array_includes_spec (xs : list jsstring) (x : jsstring) :
  array_includes xs x = true ↔ x ∈ xs.
Proof.
  unfold array_includes. induction xs as [|y xs IH]; simpl.
  - rewrite elem_of_nil. by split.
  - rewrite orb_true_iff, IH, jsstring_eqb_eq, elem_of_cons. done.
Qed.

Lemma allowedOrigins_agree (v : option jsstring) :
  ServerMiddleware.allowedOrigins v = WorkerRoutes.allowedOrigins v.
Proof. by destruct v as [[|c s]|]. Qed.

(** X18: both deployments read [ALLOWED_ORIGINS] as the list of its pieces
    between commas, each trimmed: a list of entries without commas, joined by
    commas, is read back entry by entry, blanks around an entry dropped. *)
Theorem allowedOrigins_reads_list (ls : list jsstring) :
  Forall (λ o, comma_free o = true) ls →
  join_on COMMA ls ≠ [] →
  ServerMiddleware.allowedOrigins (Some (join_on COMMA ls))
  = List.map trim ls
  ∧ WorkerRoutes.allowedOrigins (Some (join_on COMMA ls))
    = List.map trim ls.
Proof.
  intros Hls Hne. rewrite allowedOrigins_agree.
  assert (H : WorkerRoutes.allowedOrigins (Some (join_on COMMA ls))
              = List.map trim ls); [|done].
  unfold WorkerRoutes.allowedOrigins, or_default.
  destruct (join_on COMMA ls) as [|c s] eqn:Hj; [done|].
  rewrite <- Hj, split_on_join; [done| |done]. by intros ->.
Qed.

Lemma allowedOrigins_reads_list_witness :
  ServerMiddleware.allowedOrigins
    (Some (js "https://a.example, https://b.example"))
  = [js "https://a.example"; js "https://b.example"]
  ∧ WorkerRoutes.allowedOrigins
      (Some (js "https://a.example, https://b.example"))
    = [js "https://a.example"; js "https://b.example"].
Proof.
  apply (allowedOrigins_reads_list
           [js "https://a.example"; js " https://b.example"]).
  - repeat constructor.
  - discriminate.
Defined.

(** X19: the limiter skips a client exactly when its address is one of the
    entries of [TRUSTED_IPS], compared as written: the entries are not
    trimmed. Without [TRUSTED_IPS] nobody is skipped. *)
Theorem skip_trusted (ls : list jsstring) (ip : jsstring) :
  ls ≠ [] → Forall (λ a, comma_free a = true) ls →
  (ServerMiddleware.skip (Some (join_on COMMA ls)) ip = true ↔ ip ∈ ls)
  ∧ ServerMiddleware.skip None ip = false.
Proof.
  intros Hne Hls. split; [|done]. unfold ServerMiddleware.skip.
  by rewrite split_on_join, array_includes_spec.
Qed.

Lemma skip_trusted_witness :
  (ServerMiddleware.skip (Some (js "10.0.0.1, 10.0.0.2")) (js "10.0.0.2")
   = true
   ↔ js "10.0.0.2" ∈ [js "10.0.0.1"; js " 10.0.0.2"])
  ∧ ServerMiddleware.skip None (js "10.0.0.2") = false.
Proof.
  apply (skip_trusted [js "10.0.0.1"; js " 10.0.0.2"] (js "10.0.0.2")).
  - discriminate.
  - repeat constructor.
Defined.

(** ** Origins *)

Lemma header_app_fresh (name v : jsstring) (hs : Headers) :
  header name hs = None → header name (hs ++ [(name, v)]) = Some v.
Proof.
  induction hs as [|[k w] hs IH]; simpl.
  - intros _. unfold jsstring_eqb. by rewrite bool_decide_eq_true_2.
  - destruct (jsstring_eqb k name); [done|]. apply IH.
Qed.

Lemma getCorsHeaders_allow_origin (origin : jsstring)
    (allowed : list jsstring) :
  header ALLOW_ORIGIN (WorkerRoutes.getCorsHeaders origin allowed)
  = if startsWith CHROME_EXTENSION origin then Some origin
    else if array_includes allowed (js "*") then Some (js "*")
    else if array_includes allowed origin then Some origin
    else None.
Proof.
  unfold WorkerRoutes.getCorsHeaders.
  destruct (startsWith _ _); [by apply header_app_fresh|].
  destruct (array_includes allowed (js "*")); [by apply header_app_fresh|].
  destruct (array_includes allowed origin); [by apply header_app_fresh|].
  done.
Qed.

(** X20: the two deployments admit the same origins: for a request that names
    its origin, the server's origin callback accepts it exactly when the
    worker answers with an [Access-Control-Allow-Origin] header. *)
Theorem cors_deployments_agree (ALLOWED_ORIGINS : option jsstring)
    (origin : jsstring) :
  origin ≠ [] →
  ServerMiddleware.origin (ServerMiddleware.allowedOrigins ALLOWED_ORIGINS)
    (Some origin) = None
  ↔ is_Some
      (header ALLOW_ORIGIN
         (WorkerRoutes.getCorsHeaders origin
            (WorkerRoutes.allowedOrigins ALLOWED_ORIGINS))).
Proof.
  intros Hne. rewrite getCorsHeaders_allow_origin, allowedOrigins_agree.
  destruct origin as [|c o]; [done|]. unfold ServerMiddleware.origin.
  destruct (startsWith _ _); [by split|].
  destruct (array_includes _ (js "*")); [by split|].
  destruct (array_includes _ (c :: o)); [by split|].
  split; [done|]. by intros [? ?].
Qed.

Lemma cors_deployments_agree_witness :
  ServerMiddleware.origin
    (ServerMiddleware.allowedOrigins (Some (js "https://a.example")))
    (Some (js "https://b.example")) = None
  ↔ is_Some
      (header ALLOW_ORIGIN
         (WorkerRoutes.getCorsHeaders (js "https://b.example")
            (WorkerRoutes.allowedOrigins (Some (js "https://a.example"))))).
Proof.
  apply (cors_deployments_agree (Some (js "https://a.example"))
           (js "https://b.example")).
  discriminate.
Defined.

(** X21: the worker never names an origin other than the requester's: its
    [Access-Control-Allow-Origin] header, when there is one, holds the origin
    of the request or, when the wildcard is configured, ["*"]. The three other
    headers are always there. *)
Theorem worker_cors_headers (origin : jsstring)
    (allowed : list jsstring) :
  let hs := WorkerRoutes.getCorsHeaders origin allowed in
  (header ALLOW_ORIGIN hs = None
   ∨ header ALLOW_ORIGIN hs = Some origin
   ∨ header ALLOW_ORIGIN hs = Some (js "*") ∧ js "*" ∈ allowed)
  ∧ header (js "Access-Control-Allow-Methods") hs
    = Some (js "POST, GET, OPTIONS")
  ∧ header (js "Access-Control-Allow-Headers") hs
    = Some (js "Content-Type")
  ∧ header (js "Access-Control-Max-Age") hs = Some (js "86400").
Proof.
  cbv zeta. split.
  - rewrite getCorsHeaders_allow_origin.
    destruct (startsWith _ _); [by auto|].
    destruct (array_includes allowed (js "*")) eqn:Hw;
      [apply array_includes_spec in Hw; by auto|].
    destruct (array_includes allowed origin); by auto.
  - unfold WorkerRoutes.getCorsHeaders.
    destruct (startsWith _ _); [done|].
    destruct (array_includes allowed (js "*")); [done|].
    by destruct (array_includes allowed origin).
Qed.

(** X22: without [ALLOWED_ORIGINS], or with an empty one, every origin is
    admitted by both deployments. *)
Theorem default_origins_open (ALLOWED_ORIGINS : option jsstring)
    (origin : option jsstring) :
  or_default ALLOWED_ORIGINS [] = [] →
  ServerMiddleware.origin (ServerMiddleware.allowedOrigins ALLOWED_ORIGINS)
    origin = None
  ∧ is_Some
      (header ALLOW_ORIGIN
         (WorkerRoutes.getCorsHeaders (or_default origin [])
            (WorkerRoutes.allowedOrigins ALLOWED_ORIGINS))).
Proof.
  intros Hd. rewrite getCorsHeaders_allow_origin.
  assert (Ha : WorkerRoutes.allowedOrigins ALLOWED_ORIGINS = [js "*"]).
  { by destruct ALLOWED_ORIGINS as [[|c s]|]. }
  rewrite allowedOrigins_agree, Ha. split.
  - destruct origin as [[|c o]|]; [done| |done].
    unfold ServerMiddleware.origin. by destruct (startsWith _ _).
  - by destruct (startsWith _ _).
Qed.

Lemma default_origins_open_witness :
  ServerMiddleware.origin (ServerMiddleware.allowedOrigins None)
    (Some (js "https://b.example")) = None
  ∧ is_Some
      (header ALLOW_ORIGIN
         (WorkerRoutes.getCorsHeaders (js "https://b.example")
            (WorkerRoutes.allowedOrigins None))).
Proof.
  apply (default_origins_open None (Some (js "https://b.example"))).
  reflexivity.
Defined.


(** ** Routes of the worker *)

(** X24: only [POST /translate] reaches the rate limiter, the cache and
    the generative model: every other request leaves the namespace as it
    was and calls nothing. A preflight is answered 200 on any path, and
    what is neither a preflight, [GET /health] nor [POST /translate] is
    answered 404. *)
Theorem worker_routes (pf : Platform) (env : Worker.Env)
    (ALLOWED_ORIGINS : option jsstring) (up : Worker.Upstream)
    (clock : Worker.Clock) (kv : Worker.KV)
    (request : WorkerRoutes.Request) :
  let out :=
    WorkerRoutes.fetch pf env ALLOWED_ORIGINS up clock kv request in
  let translate :=
    bool_decide (WorkerRoutes.method request = js "POST"
                 ∧ WorkerRoutes.pathname request = js "/translate") in
  (translate = false → out.1.2 = kv ∧ out.2 = [])
  ∧ (WorkerRoutes.method request = js "OPTIONS" →
     out.1.1.1 = WorkerRoutes.Preflight)
  ∧ (WorkerRoutes.answer_status out.1.1.1 = 404 ↔
     translate = false
     ∧ WorkerRoutes.method request ≠ js "OPTIONS"
     ∧ ¬ (WorkerRoutes.method request = js "GET"
          ∧ WorkerRoutes.pathname request = js "/health")).
Proof.
  cbv zeta. unfold WorkerRoutes.fetch, jsstring_eqb.
  destruct request as [m p o a b]. cbn [WorkerRoutes.method
    WorkerRoutes.pathname WorkerRoutes.Origin WorkerRoutes.CF_Connecting_IP
    WorkerRoutes.json].
  pose proof (worker_fetch_status pf env up clock kv
                (or_default a (js "unknown")) b) as Hst.
  destruct (Worker.fetch _ _ _ _ _ _ _) as [[r kv'] ev].
  cbn [fst snd] in Hst.
  assert (H404 : status r ≠ 404).
  { intros H. rewrite H, !elem_of_cons, elem_of_nil in Hst.
    by decompose [or] Hst. }
  clear Hst.
  repeat case_bool_decide;
    cbn [andb fst snd WorkerRoutes.answer_status];
    repeat match goal with
           | H : _ ∧ _ |- _ => destruct H
           | H : ?x = js _ |- _ => subst x
           | H : js _ = js _ |- _ => discriminate H
           end;
    try (split; [done|split; [done|split]]);
    try done; try tauto; by intros [? _].
Qed.

(** ** What a response reports *)

Lemma trim_idem (s : jsstring) : trim (trim s) = trim s.
Proof.
  unfold trim at 1.
  rewrite (trimStart_clean (trim s)) by apply trim_starts_clean.
  apply trim_trimEnd.
Qed.

Lemma detected_or_en_two_letters (pf : Platform) (r : jsstring) :
  test_two_lower (detected_or_en pf r) = true.
Proof.
  unfold detected_or_en.
  by destruct (test_two_lower (toLowerCase pf (trim r))) eqn:H.
Qed.

Lemma server_resolve_source_reports (pf : Platform) (cfg : Server.Config)
    (up : Server.Upstream) (body : Body) (t : jsstring) :
  reports_source body
    (Server.resolve_source pf cfg up (sourceLang_or_auto body) t).1.
Proof.
  unfold reports_source, Server.resolve_source, Server.detectLanguage.
  destruct (strict_eq (sourceLang_or_auto body) _); [|done].
  eexists. split; [done|].
  destruct (Server.detect_reply _ _ _);
    [apply detected_or_en_two_letters|done].
Qed.

Lemma worker_resolve_source_reports (pf : Platform) (env : Worker.Env)
    (up : Worker.Upstream) (body : Body) (t : jsstring) (d : jsval) :
  (Worker.resolve_source pf env up (sourceLang_or_auto body) t).1 = inl d →
  reports_source body d.
Proof.
  unfold reports_source, Worker.resolve_source, Worker.detectLanguage.
  destruct (strict_eq (sourceLang_or_auto body) _);
    [|by intros [= <-]].
  destruct (Worker.detect_reply _ _ _); [|done..].
  intros [= <-]. eexists. split; [done|].
  apply detected_or_en_two_letters.
Qed.

(** X25: the [detectedSourceLang] of a success response: when the request left
    the source language to the detector it is a code of two lower-case
    letters, whatever the model answered; otherwise it is the value the
    request gave, unchanged. *)
Theorem detected_language_reported (pf : Platform) (cfg : Server.Config)
    (env : Worker.Env) (ups : Server.Upstream) (upw : Worker.Upstream)
    (clocks : Server.Clock) (clockw : Worker.Clock) (cache : cache_map)
    (kv : Worker.KV) (ip : jsstring) (body : Body) (t : jsstring)
    (c : bool) (d : jsval) :
  ((Server.post_translate pf cfg ups clocks cache body).1.1
   = Success t c d → reports_source body d)
  ∧ ((Worker.fetch pf env upw clockw kv ip (Worker.Parsed body)).1.1
     = Success t c d → reports_source body d).
Proof.
  split.
  - unfold Server.post_translate.
    destruct (text_invalid _); [done|].
    destruct (Server.targetLang_invalid _); [done|].
    destruct (provider_invalid _); [done|].
    pose proof (server_resolve_source_reports pf cfg ups body
                  (Server.normalizeText (string_of (text body)))) as Hr.
    destruct (Server.resolve_source _ _ _ _ _) as [d' ev].
    destruct (strict_eq d' (targetLang body)); [by intros [= <- <- <-]|].
    destruct (Server.cache_get _ _ _ _); [by intros [= <- <- <-]|].
    destruct (Server.translateText _ _ _ _ _) as [t'|m];
      [by intros [= <- <- <-]|done].
  - unfold Worker.fetch.
    destruct (Worker.checkRateLimit _ _ _) as [rl w].
    destruct (negb (Worker.allowed rl)); [done|].
    destruct (text_invalid _); [done|].
    destruct (Worker.targetLang_invalid _); [done|].
    destruct (provider_invalid _); [done|].
    unfold Worker.translate_valid.
    pose proof (worker_resolve_source_reports pf env upw body
                  (Worker.normalizeText (string_of (text body)))) as Hr.
    destruct (Worker.resolve_source _ _ _ _ _) as [[d'|m] ev]; [|done].
    specialize (Hr d' eq_refl).
    destruct (strict_eq d' (targetLang body)); [by intros [= <- <- <-]|].
    destruct (Worker.cache_hit _); [by intros [= <- <- <-]|].
    destruct (Worker.api_key_missing env); [done|].
    destruct (Worker.translateText _ _ _ _ _) as [t'|m'];
      [by intros [= <- <- <-]|done].
Qed.

(** X26: A translation that comes from the translation service, in the
    response and in the cache entry written for it, has no white space at
    either end. *)
Theorem fresh_translation_trimmed (pf : Platform) (cfg : Server.Config)
    (env : Worker.Env) (ups : Server.Upstream) (upw : Worker.Upstream)
    (clocks : Server.Clock) (clockw : Worker.Clock) (cache : cache_map)
    (kv : Worker.KV) (ip : jsstring) (body : Body) (t : jsstring)
    (d : jsval) :
  strict_eq d (targetLang body) = false →
  ((Server.post_translate pf cfg ups clocks cache body).1.1
   = Success t false d → trim t = t)
  ∧ ((Worker.fetch pf env upw clockw kv ip (Worker.Parsed body)).1.1
     = Success t false d → trim t = t).
Proof.
  intros Hne. split.
  - unfold Server.post_translate.
    destruct (text_invalid _); [done|].
    destruct (Server.targetLang_invalid _); [done|].
    destruct (provider_invalid _); [done|].
    destruct (Server.resolve_source _ _ _ _ _) as [d' ev].
    destruct (strict_eq d' (targetLang body)) eqn:Hsc;
      [intros [= <- <-]; congruence|].
    destruct (Server.cache_get _ _ _ _); [done|].
    unfold Server.translateText.
    destruct (Server.translate_reply _ _ _ _ _) as [r|m]; [|done].
    intros [= <- <-]. apply trim_idem.
  - unfold Worker.fetch.
    destruct (Worker.checkRateLimit _ _ _) as [rl w].
    destruct (negb (Worker.allowed rl)); [done|].
    destruct (text_invalid _); [done|].
    destruct (Worker.targetLang_invalid _); [done|].
    destruct (provider_invalid _); [done|].
    unfold Worker.translate_valid.
    destruct (Worker.resolve_source _ _ _ _ _) as [[d'|m] ev]; [|done].
    destruct (strict_eq d' (targetLang body)) eqn:Hsc;
      [intros [= <- <-]; congruence|].
    destruct (Worker.cache_hit _); [done|].
    destruct (Worker.api_key_missing env); [done|].
    unfold Worker.translateText.
    destruct (Worker.translate_reply _ _ _ _ _) as [r|st b|m]; [|done..].
    intros [= <- <-]. apply trim_idem.
Qed.

Lemma fresh_translation_trimmed_witness :
  trim (js "Xin chao the gioi") = js "Xin chao the gioi".
Proof.
  refine (proj1 (fresh_translation_trimmed sample_platform ServerSample.cfg
                   WorkerSample.env ServerSample.up WorkerSample.up
                   (ServerSample.clock 0) (WorkerSample.clock 0) ∅
                   WorkerSample.empty_kv client hello
                   (js "Xin chao the gioi") (lang "en") _) _);
    reflexivity.
Defined.

(** ** The answer depends on the text through its normal form *)

Lemma same_words_squeeze (s t : jsstring) :
  words s = words t → squeeze s = squeeze t.
Proof. intros H. by rewrite !squeeze_words, H. Qed.

Lemma nonblank_text_valid (s : jsstring) :
  trim s ≠ [] → text_invalid (JString s) = false.
Proof. intros H. apply text_invalid_false. by exists s. Qed.

(** X27: two requests that differ only in their texts, both not blank, and
    whose texts have the same normal form on the server, are the same request
    to both deployments: same response, same cache afterwards, same calls. *)
Theorem same_normal_form_same_answer (pf : Platform) (cfg : Server.Config)
    (env : Worker.Env) (ups : Server.Upstream) (upw : Worker.Upstream)
    (clocks : Server.Clock) (clockw : Worker.Clock) (cache : cache_map)
    (kv : Worker.KV) (ip : jsstring) (body : Body) (s s' : jsstring) :
  trim s ≠ [] → trim s' ≠ [] →
  Server.normalizeText s = Server.normalizeText s' →
  Server.post_translate pf cfg ups clocks cache (with_text body s)
  = Server.post_translate pf cfg ups clocks cache (with_text body s')
  ∧ Worker.fetch pf env upw clockw kv ip (Worker.Parsed (with_text body s))
    = Worker.fetch pf env upw clockw kv ip
        (Worker.Parsed (with_text body s')).
Proof.
  intros Hs Hs' Hnf.
  assert (Hw : Worker.normalizeText s = Worker.normalizeText s').
  { apply same_words_squeeze.
    by rewrite <- (words_server_normalizeText s), Hnf,
      words_server_normalizeText. }
  apply nonblank_text_valid in Hs, Hs'.
  unfold Server.post_translate, Worker.fetch, Worker.translate_valid,
    sourceLang_or_auto.
  cbn [with_text text sourceLang targetLang provider string_of].
  by rewrite Hs, Hs', Hnf, Hw.
Qed.

Lemma same_normal_form_same_answer_witness :
  Server.post_translate sample_platform ServerSample.cfg ServerSample.up
    (ServerSample.clock 0) ∅ (with_text hello (js " Hello   world"))
  = Server.post_translate sample_platform ServerSample.cfg ServerSample.up
      (ServerSample.clock 0) ∅ (with_text hello (js "Hello world "))
  ∧ Worker.fetch sample_platform WorkerSample.env WorkerSample.up
      (WorkerSample.clock 0) WorkerSample.empty_kv client
      (Worker.Parsed (with_text hello (js " Hello   world")))
    = Worker.fetch sample_platform WorkerSample.env WorkerSample.up
        (WorkerSample.clock 0) WorkerSample.empty_kv client
        (Worker.Parsed (with_text hello (js "Hello world "))).
Proof.
  apply (same_normal_form_same_answer sample_platform ServerSample.cfg
           WorkerSample.env ServerSample.up WorkerSample.up
           (ServerSample.clock 0) (WorkerSample.clock 0) ∅
           WorkerSample.empty_kv client hello (js " Hello   world")
           (js "Hello world "));
    [discriminate|discriminate|reflexivity].
Defined.

(** X28: to the worker the words of the text are all that matters: two
    requests that differ only in their texts, both not blank, with the same
    words in the same order, get the same answer. *)
Theorem worker_same_words_same_answer (pf : Platform) (env : Worker.Env)
    (up : Worker.Upstream) (clock : Worker.Clock) (kv : Worker.KV)
    (ip : jsstring) (body : Body) (s s' : jsstring) :
  words s ≠ [] → words s = words s' →
  Worker.fetch pf env up clock kv ip (Worker.Parsed (with_text body s))
  = Worker.fetch pf env up clock kv ip (Worker.Parsed (with_text body s')).
Proof.
  intros Hne Hw.
  assert (Hs : text_invalid (JString s) = false).
  { apply nonblank_text_valid. rewrite <- words_trim in Hne.
    intros H. by rewrite H in Hne. }
  assert (Hs' : text_invalid (JString s') = false).
  { apply nonblank_text_valid. rewrite Hw, <- words_trim in Hne.
    intros H. by rewrite H in Hne. }
  unfold Worker.fetch, Worker.translate_valid, sourceLang_or_auto.
  cbn [with_text text sourceLang targetLang provider string_of].
  unfold Worker.normalizeText.
  by rewrite Hs, Hs', (same_words_squeeze s s' Hw).
Qed.

Lemma worker_same_words_same_answer_witness :
  Worker.fetch sample_platform WorkerSample.env WorkerSample.up
    (WorkerSample.clock 0) WorkerSample.empty_kv client
    (Worker.Parsed (with_text hello (js "Hello" ++ [LF] ++ js "world")))
  = Worker.fetch sample_platform WorkerSample.env WorkerSample.up
      (WorkerSample.clock 0) WorkerSample.empty_kv client
      (Worker.Parsed (with_text hello (js "Hello world"))).
Proof.
  apply (worker_same_words_same_answer sample_platform WorkerSample.env
           WorkerSample.up (WorkerSample.clock 0) WorkerSample.empty_kv
           client hello (js "Hello" ++ [LF] ++ js "world")
           (js "Hello world"));
    [discriminate|reflexivity].
Defined.
